(** * GICS code resolver (py-gics): a shallow embedding and its properties

    The development models [gics/map.py] and [gics/gics.py].  Python
    dictionaries are mutable objects reached through references, so the
    model keeps them in an explicit store: a [Map] is a location of the
    store, attribute and item assignment update the store in place, and
    [Map.create_recursively] allocates fresh objects.  Exceptions are the
    second outcome of every effectful operation. *)

From Stdlib Require Import ZArith String Ascii List Bool Lia.
From stdpp Require Import base list strings.

Open Scope string_scope.
Open Scope list_scope.
Open Scope nat_scope.

(** ** Values, dictionaries and the store *)

Abbreviation loc := nat (only parsing).

(** The Python values that reach the resolver: [None], booleans, integers,
    strings and references to dictionary objects ([dict] and its subclass
    [Map]). *)
Inductive value : Type :=
| VNone
| VBool (b : bool)
| VInt (z : Z)
| VStr (s : string)
| VRef (l : loc).

(** A dictionary keeps its items in insertion order; keys are strings. *)
Abbreviation dict := (list (string * value)) (only parsing).
Abbreviation heap := (list (list (string * value))) (only parsing).

(** [d.get(k)]: the value of the first (and, in a Python dictionary, only)
    item with key [k]. *)
Fixpoint dict_get (d : dict) (k : string) : option value :=
  match d with
  | [] => None
  | (k', v) :: d' => if String.eqb k' k then Some v else dict_get d' k
  end.

(** [d[k] = v]: an existing key keeps its position, a new key is appended. *)
Fixpoint dict_set (d : dict) (k : string) (v : value) : dict :=
  match d with
  | [] => [(k, v)]
  | (k', v') :: d' =>
      if String.eqb k' k then (k', v) :: d' else (k', v') :: dict_set d' k v
  end.

Definition dict_keys (d : dict) : list string := map fst d.

(** [d.get(k)] with its default [None] as a value. *)
Definition dict_get_default (d : dict) (k : string) : value :=
  match dict_get d k with Some v => v | None => VNone end.

(** ** Exceptions and the state-and-exception monad *)

Inductive exn : Type :=
| ValueError (msg : string)
| KeyError (key : string)
| AttributeError (name : string)
| TypeError
| IndexError
| RecursionError.

Inductive result (A : Type) : Type :=
| Ok (a : A)
| Raise (e : exn).
Arguments Ok {A} a.
Arguments Raise {A} e.

Definition M (A : Type) : Type := heap -> result A * heap.

Definition ret {A} (a : A) : M A := fun h => (Ok a, h).
Definition raise {A} (e : exn) : M A := fun h => (Raise e, h).
Definition bind {A B} (m : M A) (k : A -> M B) : M B :=
  fun h => match m h with
           | (Ok a, h') => k a h'
           | (Raise e, h') => (Raise e, h')
           end.

Notation "x <- c1 ;; c2" := (bind c1 (fun x => c2))
  (at level 100, c1 at next level, right associativity).
Notation "c1 ;; c2" := (bind c1 (fun _ => c2))
  (at level 100, right associativity).

(** Reading the store without changing it. *)
Definition gets {A} (f : heap -> A) : M A := fun h => (Ok (f h), h).

(** A new object is placed at the first unused location. *)
Definition alloc (d : dict) : M loc := fun h => (Ok (length h), h ++ [d]).

Definition deref (l : loc) : M dict := gets (fun h => h !!! l).

(** [obj[key] = v] on the dictionary object at [l]. *)
Definition setitem (l : loc) (key : string) (v : value) : M unit :=
  fun h => (Ok tt, <[l := dict_set (h !!! l) key v]> h).

(** A [for] loop over a list. *)
Fixpoint for_each {A} (xs : list A) (body : A -> M unit) : M unit :=
  match xs with
  | [] => ret tt
  | x :: xs' => body x ;; for_each xs' body
  end.

(** [list(map(f, xs))]. *)
Fixpoint map_each {A B} (xs : list A) (f : A -> M B) : M (list B) :=
  match xs with
  | [] => ret []
  | x :: xs' => y <- f x ;; ys <- map_each xs' f ;; ret (y :: ys)
  end.

(** ** Python primitives *)

(** Truth value of an object: [None], [False], [0], the empty string and
    the empty dictionary are false. *)
Definition truthy (h : heap) (v : value) : bool :=
  match v with
  | VNone => false
  | VBool b => b
  | VInt z => negb (z =? 0)%Z
  | VStr s => negb (String.length s =? 0)
  | VRef l => negb (length (h !!! l) =? 0)
  end.

(** [a and b]: [a] when [a] is false, [b] otherwise. *)
Definition py_and (h : heap) (a b : value) : value :=
  if truthy h a then b else a.

(** [isinstance(v, int)]: [bool] is a subclass of [int], [True] is [1]. *)
Definition as_int (v : value) : option Z :=
  match v with
  | VInt z => Some z
  | VBool b => Some (if b then 1 else 0)%Z
  | _ => None
  end.

(** The frames left for a recursion (CPython's default recursion limit). *)
Definition recursion_limit : nat := 1000.

(** The loop of the comparison of two dictionaries: every item of the
    first has an equal value under the same key in the second [db]. *)
Fixpoint dict_items_eq (eq : value -> value -> result bool) (db items : dict)
  : result bool :=
  match items with
  | [] => Ok true
  | (k, v) :: rest =>
      match dict_get db k with
      | None => Ok false
      | Some v' =>
          match eq v v' with
          | Ok true => dict_items_eq eq db rest
          | r => r
          end
      end
  end.

(** [a == b].  Dictionaries are equal when they have the same size and
    every item of [a] has an equal value under the same key in [b]; the
    comparison of nested dictionaries recurses and an object is equal to
    itself. *)
Fixpoint py_eq (depth : nat) (h : heap) (a b : value) : result bool :=
  match a, b with
  | VNone, VNone => Ok true
  | VStr s, VStr t => Ok (String.eqb s t)
  | VRef l, VRef m =>
      if l =? m then Ok true else
      match depth with
      | 0 => Raise RecursionError
      | S depth' =>
          if negb (length (h !!! l) =? length (h !!! m)) then Ok false
          else dict_items_eq (py_eq depth' h) (h !!! m) (h !!! l)
      end
  | _, _ =>
      match as_int a, as_int b with
      | Some x, Some y => Ok (x =? y)%Z
      | _, _ => Ok false
      end
  end.

(** [repr] of a string and of a list of strings. *)
Definition repr_str (s : string) : string := "'" +:+ s +:+ "'".
Definition repr_list (l : list string) : string :=
  "[" +:+ String.concat ", " (map repr_str l) +:+ "]".

(** ** gics/map.py *)

(** [Map.create_recursively(data)]: a new [Map] with the items of [data],
    in which every value that is a dictionary is replaced by its own
    recursive copy.  The loop assigns only to the key it is visiting, so
    it sees the items the new [Map] started with. *)
Fixpoint create_recursively (depth : nat) (data : loc) : M loc :=
  match depth with
  | 0 => raise RecursionError
  | S depth' =>
      src <- deref data ;;
      data' <- alloc src ;;
      items <- deref data' ;;
      for_each items (fun '(key, v) =>
        match v with
        | VRef l =>
            c <- create_recursively depth' l ;;
            setitem data' key (VRef c)
        | _ => ret tt
        end) ;;
      ret data'
  end.

(** ** gics/gics.py *)

(** A resolver object.  [_levels] is [None] while the attribute has not
    been assigned. *)
Record GICS : Type := mkGICS {
  _definition_version : string;
  _definition : loc;
  _code : value;
  _levels : option (list value)
}.

Definition code (self : GICS) : value := _code self.
Definition definition (self : GICS) : loc := _definition self.

(** [GICS.is_valid]: the value of the chain of [and]s, which is the first
    false operand or else the table entry [self._definition.get(self.code)].
    The lengths are taken once [isinstance(self.code, str)] has answered
    [True]; for any other true value that test is the false operand. *)
Definition is_valid (self : GICS) (h : heap) : value :=
  py_and h (code self)
    match code self with
    | VStr c =>
        py_and h (VBool (2 <=? String.length c))
          (py_and h (VBool (String.length c <=? 8))
             (py_and h (VBool (String.length c mod 2 =? 0))
                (dict_get_default (h !!! _definition self) c)))
    | _ => VBool false
    end.

(** [GICS._get_definition]: the entry of the resolver's table under
    [gics_code], with its [code] attribute assigned in place. *)
Definition _get_definition (self : GICS) (gics_code : string) : M value :=
  table <- deref (_definition self) ;;
  match dict_get table gics_code with
  | None => raise (KeyError gics_code)
  | Some (VRef e) => setitem e "code" (VStr gics_code) ;; ret (VRef e)
  | Some _ => raise (AttributeError "code")
  end.

(** [GICS.level]. *)
Definition level (self : GICS) (gics_level : value) (h : heap) : result value :=
  if negb (truthy h (is_valid self h)) || negb (truthy h gics_level) then Ok VNone
  else
    match as_int gics_level with
    | None => Ok VNone
    | Some n =>
        if (n <? 1)%Z || (n >? 4)%Z then Ok VNone
        else
          match _levels self with
          | None => Raise (AttributeError "_levels")
          | Some levels =>
              match levels !! Z.to_nat (n - 1) with
              | Some v => Ok v
              | None => Raise IndexError
              end
          end
    end.

Definition sector (self : GICS) := level self (VInt 1).
Definition industry_group (self : GICS) := level self (VInt 2).
Definition industry (self : GICS) := level self (VInt 3).
Definition sub_industry (self : GICS) := level self (VInt 4).

(** [obj.name] on a table entry: [Map.__getattr__] is [dict.get]; any
    other value has no such attribute. *)
Definition getattr (v : value) (name : string) : M value :=
  match v with
  | VRef e => d <- deref e ;; ret (dict_get_default d name)
  | _ => raise (AttributeError name)
  end.

(** [self._definition[k]]. *)
Definition getitem (l : loc) (k : string) : M value :=
  d <- deref l ;;
  match dict_get d k with
  | Some v => ret v
  | None => raise (KeyError k)
  end.




(** [GICS.children]: one new [Map] per selected key of the table. *)
Definition children (self : GICS) : M (list value) :=
  valid <- gets (fun h => truthy h (is_valid self h)) ;;
  table <- deref (_definition self) ;;
  keys <- (if valid then
             match _code self with
             | VStr c =>
                 ret (filter (fun k => String.prefix c k
                                       && (String.length k =? String.length c + 2))
                             (dict_keys table))
             | _ => raise TypeError
             end
           else ret (filter (fun k => String.length k =? 2) (dict_keys table))) ;;
  map_each keys (fun k =>
    e1 <- getitem (_definition self) k ;;
    name <- getattr e1 "name" ;;
    e2 <- getitem (_definition self) k ;;
    description <- getattr e2 "description" ;;
    m <- alloc [("code", VStr k); ("name", name); ("description", description)] ;;
    ret (VRef m)).

(** [GICS.is_same].  The other resolver is an object, hence true. *)
Definition is_same (self another_gics : GICS) (h : heap) : result value :=
  match py_eq recursion_limit h (is_valid self h) (is_valid another_gics h) with
  | Raise e => Raise e
  | Ok false => Ok (VBool false)
  | Ok true =>
      match is_valid self h with
      | VBool false => Ok (VBool true)
      | _ =>
          match py_eq recursion_limit h (_code self) (code another_gics) with
          | Raise e => Raise e
          | Ok b => Ok (VBool b)
          end
      end
  end.

(** [GICS.is_within].  [startswith] is reached only for two valid
    resolvers, whose codes are strings. *)
Definition is_within (self another_gics : GICS) (h : heap) : result value :=
  if negb (truthy h (is_valid self h)) then Ok (is_valid self h)
  else if negb (truthy h (is_valid another_gics h)) then Ok (is_valid another_gics h)
  else
    match py_eq recursion_limit h (_code self) (code another_gics) with
    | Raise e => Raise e
    | Ok true => Ok (VBool false)
    | Ok false =>
        match _code self, code another_gics with
        | VStr c, VStr c' => Ok (VBool (String.prefix c' c))
        | VStr _, _ => Raise TypeError
        | _, _ => Raise (AttributeError "startswith")
        end
    end.

(** [GICS.is_immediate_within]. *)
Definition is_immediate_within (self another_gics : GICS) (h : heap)
  : result value :=
  match is_within self another_gics h with
  | Ok (VBool true) =>
      match _code self, _code another_gics with
      | VStr c, VStr c' => Ok (VBool (String.length c =? String.length c' + 2))
      | _, _ => Raise TypeError
      end
  | r => r
  end.

(** [GICS.contains] and [GICS.contains_immediate]. *)
Definition contains (self another_gics : GICS) (h : heap) : result value :=
  is_within another_gics self h.

Definition contains_immediate (self another_gics : GICS) (h : heap)
  : result value :=
  is_immediate_within another_gics self h.

(** A predicate holds when it returns, and returns a true value. *)
Definition holds (H : heap) (r : result value) : Prop :=
  exists v, r = Ok v /\ truthy H v = true.

Section Definitions.

(** The objects bound to the names imported from [gics.definitions]: one
    table per revision, each a dictionary from code to entry. *)
Variables d_20140228 d_20160901 d_20180929 d_20230318 : loc.

Definition DEFINITIONS : dict :=
  [("20140228", VRef d_20140228);
   ("20160901", VRef d_20160901);
   ("20180929", VRef d_20180929);
   ("20230318", VRef d_20230318)].

Definition DEFAULT_VERSION : string := "20230318".

Definition unsupported_version (version : string) : exn :=
  ValueError ("Unsupported GICS version: " +:+ version
              +:+ ". Available versions are " +:+ repr_list (dict_keys DEFINITIONS)).

(** [GICS.__init__]. *)
Definition GICS_init (code : value) (version : string) : M GICS :=
  let _definition := dict_get_default DEFINITIONS version in
  known <- gets (fun h => truthy h _definition) ;;
  if negb known then raise (unsupported_version version)
  else
    match _definition with
    | VRef table =>
        definition <- create_recursively recursion_limit table ;;
        let self := mkGICS version definition code None in
        valid <- gets (fun h => truthy h (is_valid self h)) ;;
        if valid then
          match code with
          | VStr c =>
              l1 <- _get_definition self (substring 0 2 c) ;;
              l2 <- (if 4 <=? String.length c
                     then _get_definition self (substring 0 4 c)
                     else ret VNone) ;;
              l3 <- (if 6 <=? String.length c
                     then _get_definition self (substring 0 6 c)
                     else ret VNone) ;;
              l4 <- (if String.length c =? 8
                     then _get_definition self (substring 0 8 c)
                     else ret VNone) ;;
              ret (mkGICS version definition code (Some [l1; l2; l3; l4]))
          | _ => raise TypeError
          end
        else ret (mkGICS version definition VNone None)
    | _ => raise TypeError
    end.

End Definitions.

(** ** A sample store *)

Definition sample_heap : heap :=
  [ (* 0: d_20140228 *)
    [("10", VRef 4); ("1010", VRef 5); ("50", VRef 6)];
    (* 1: d_20160901 *)
    [("10", VRef 4); ("50", VRef 6)];
    (* 2: d_20180929 *)
    [("10", VRef 4); ("50", VRef 7)];
    (* 3: d_20230318 *)
    [("10", VRef 8); ("1010", VRef 9); ("101010", VRef 10);
     ("10101010", VRef 11); ("10101020", VRef 12); ("50", VRef 7)];
    [("name", VStr "Energy")];
    [("name", VStr "Energy")];
    [("name", VStr "Telecommunication Services")];
    [("name", VStr "Communication Services")];
    [("name", VStr "Energy")];
    [("name", VStr "Energy")];
    [("name", VStr "Energy Equipment & Services")];
    [("name", VStr "Oil & Gas Drilling"); ("description", VStr "Drilling contractors")];
    [("name", VStr "Oil & Gas Equipment & Services"); ("description", VStr "Equipment makers")]
  ].


(** ** Well-formed tables

    The tables of [gics.definitions] are data: dictionaries from code to
    entry, every entry a non-empty dictionary of plain values ([name] and,
    for sub-industries, [description]). *)

Definition scalar (v : value) : bool :=
  match v with VRef _ => false | _ => true end.

Fixpoint nodupb (l : list string) : bool :=
  match l with
  | [] => true
  | x :: l' => negb (existsb (String.eqb x) l') && nodupb l'
  end.

Definition entry_ok (h : heap) (v : value) : bool :=
  match v with
  | VRef e => (e <? length h) && negb (length (h !!! e) =? 0)
              && forallb scalar (map snd (h !!! e))
              && nodupb (dict_keys (h !!! e))
  | _ => false
  end.

Definition table_ok (h : heap) (t : loc) : bool :=
  (t <? length h) && negb (length (h !!! t) =? 0)
  && nodupb (dict_keys (h !!! t)) && forallb (entry_ok h) (map snd (h !!! t)).

(** The items of a copied table: the same keys, the [i]-th value a
    reference to the [i]-th new entry. *)
Fixpoint relocate (base : loc) (items : dict) : dict :=
  match items with
  | [] => []
  | (k, _) :: rest => (k, VRef base) :: relocate (S base) rest
  end.

Definition entry_of (h : heap) (kv : string * value) : list (string * value) :=
  match snd kv with VRef e => h !!! e | _ => [] end.

(** ** Dictionaries *)

Lemma dict_get_set_eq d k v : dict_get (dict_set d k v) k = Some v.
Proof.
  induction d as [|[k' v'] d IH]; simpl.
  - by rewrite String.eqb_refl.
  - destruct (String.eqb k' k) eqn:E; simpl; by rewrite E.
Qed.

Lemma dict_get_set_ne d k k' v :
  k <> k' -> dict_get (dict_set d k v) k' = dict_get d k'.
Proof.
  intros Hne. induction d as [|[k0 v0] d IH]; simpl.
  - apply String.eqb_neq in Hne. by rewrite Hne.
  - destruct (String.eqb k0 k) eqn:E; simpl.
    + apply String.eqb_eq in E. subst k0.
      apply String.eqb_neq in Hne. by rewrite Hne.
    + by rewrite IH.
Qed.

Lemma dict_set_length_pos d k v : 0 < length (dict_set d k v).
Proof.
  destruct d as [|[k' v'] d]; simpl; [lia|].
  destruct (String.eqb k' k); simpl; lia.
Qed.

Lemma dict_keys_set d k v :
  k ∈ dict_keys d -> dict_keys (dict_set d k v) = dict_keys d.
Proof.
  induction d as [|[k' v'] d IH]; simpl; intros Hin.
  - by apply elem_of_nil in Hin.
  - destruct (String.eqb k' k) eqn:E; simpl; [done|].
    f_equal. apply IH. apply elem_of_cons in Hin as [->|Hin]; [|done].
    by rewrite String.eqb_refl in E.
Qed.

Lemma dict_get_None d k : dict_get d k = None <-> k ∉ dict_keys d.
Proof.
  induction d as [|[k' v'] d IH]; simpl.
  - split; [intros _; apply not_elem_of_nil|done].
  - rewrite not_elem_of_cons. destruct (String.eqb k' k) eqn:E.
    + apply String.eqb_eq in E. split; [done|]. intros [? _]. congruence.
    + apply String.eqb_neq in E. rewrite IH. split; [|tauto].
      intros ?. split; congruence.
Qed.

Lemma dict_get_Some_keys d k v : dict_get d k = Some v -> k ∈ dict_keys d.
Proof.
  intros H. destruct (decide (k ∈ dict_keys d)) as [|Hn]; [done|].
  apply dict_get_None in Hn. congruence.
Qed.

Lemma dict_get_elem_of d k v : dict_get d k = Some v -> (k, v) ∈ d.
Proof.
  induction d as [|[k' v'] d IH]; simpl; [done|].
  destruct (String.eqb k' k) eqn:E.
  - apply String.eqb_eq in E. intros [= ->]. subst. apply elem_of_cons. by left.
  - intros H. apply elem_of_cons. right. by apply IH.
Qed.

Lemma dict_set_app_fresh pre k v0 rest v :
  k ∉ dict_keys pre ->
  dict_set (pre ++ (k, v0) :: rest) k v = pre ++ (k, v) :: rest.
Proof.
  induction pre as [|[k' v'] pre IH]; simpl; intros Hn.
  - by rewrite String.eqb_refl.
  - apply not_elem_of_cons in Hn as [Hne Hn].
    destruct (String.eqb k' k) eqn:E.
    + apply String.eqb_eq in E. congruence.
    + by rewrite IH.
Qed.

Lemma nodupb_NoDup l : nodupb l = true -> NoDup l.
Proof.
  induction l as [|x l IH]; simpl; [constructor|].
  intros [Hx Hl]%andb_true_iff. constructor; [|by apply IH].
  intros Hin. apply negb_true_iff in Hx.
  assert (existsb (String.eqb x) l = true); [|congruence].
  apply existsb_exists. exists x. split; [by apply list_elem_of_In|].
  apply String.eqb_refl.
Qed.

Lemma dict_keys_relocate base items :
  dict_keys (relocate base items) = dict_keys items.
Proof.
  revert base. induction items as [|[k v] items IH]; intros base; simpl; [done|].
  by rewrite IH.
Qed.

Lemma relocate_length base items : length (relocate base items) = length items.
Proof.
  revert base. induction items as [|[k v] items IH]; intros base; simpl; [done|].
  by rewrite IH.
Qed.

(** ** Running the monad *)

Lemma bind_Ok {A B} (m : M A) (k : A -> M B) h a h' :
  m h = (Ok a, h') -> bind m k h = k a h'.
Proof. intros E. unfold bind. by rewrite E. Qed.

Lemma bind_Raise {A B} (m : M A) (k : A -> M B) h e h' :
  m h = (Raise e, h') -> bind m k h = (Raise e, h').
Proof. intros E. unfold bind. by rewrite E. Qed.

(** ** The copy of a well-formed table *)

(** The body of the loop of [create_recursively]. *)
Definition copy_body (rec : loc -> M loc) (data' : loc)
  : string * value -> M unit :=
  fun '(key, v) =>
    match v with
    | VRef l => c <- rec l ;; setitem data' key (VRef c)
    | _ => ret tt
    end.

#[global] Arguments create_recursively : simpl never.

Lemma create_recursively_S depth data :
  create_recursively (S depth) data =
  (src <- deref data ;;
   data' <- alloc src ;;
   items <- deref data' ;;
   for_each items (copy_body (create_recursively depth) data') ;;
   ret data').
Proof. reflexivity. Qed.

Lemma for_each_scalar rec data' (items : dict) (H : heap) :
  forallb scalar (map snd items) = true ->
  for_each items (copy_body rec data') H = (Ok tt, H).
Proof.
  revert H. induction items as [|[k v] items IH]; intros H; simpl; [done|].
  intros [Hv Hi]%andb_true_iff.
  rewrite (bind_Ok _ _ _ tt H); [by apply IH|].
  by destruct v.
Qed.

(** An entry of plain values is copied as it is. *)
Lemma create_recursively_entry depth e (H : heap) :
  forallb scalar (map snd (H !!! e)) = true ->
  create_recursively (S depth) e H = (Ok (length H), H ++ [H !!! e]).
Proof.
  intros Hs. rewrite create_recursively_S.
  unfold bind at 1. unfold deref at 1, gets at 1.
  unfold bind at 1. unfold alloc at 1.
  unfold bind at 1. unfold deref at 1, gets at 1.
  rewrite list_lookup_total_middle by done.
  rewrite (bind_Ok _ _ _ tt (H ++ [H !!! e])); [done|].
  by apply for_each_scalar.
Qed.

Lemma entry_ok_inv (h : heap) v :
  entry_ok h v = true ->
  exists e, v = VRef e /\ e < length h /\ 0 < length (h !!! e)
            /\ forallb scalar (map snd (h !!! e)) = true.
Proof.
  destruct v as [| | | |e]; simpl; try done.
  intros [[[H1 H2]%andb_true_iff H3]%andb_true_iff _]%andb_true_iff.
  exists e. apply Nat.ltb_lt in H1. apply negb_true_iff, Nat.eqb_neq in H2.
  repeat split; [done|lia|done].
Qed.

Lemma copy_loop depth (h : heap) (rest pre : dict) (cs : heap) :
  Forall (fun kv => entry_ok h kv.2 = true) rest ->
  NoDup (dict_keys (pre ++ rest)) ->
  for_each rest (copy_body (create_recursively (S depth)) (length h))
    (h ++ (pre ++ rest) :: cs)
  = (Ok tt, h ++ (pre ++ relocate (S (length h) + length cs) rest)
                 :: (cs ++ map (entry_of h) rest)).
Proof.
  revert pre cs. induction rest as [|[k v] rest IH]; intros pre cs Hok Hnd.
  - simpl. by rewrite !app_nil_r.
  - apply Forall_cons in Hok as [Hv Hok]. simpl in Hv.
    apply entry_ok_inv in Hv as (e & Hve & He & _ & Hsc). subst v. simpl in *.
    set (H := h ++ (pre ++ (k, VRef e) :: rest) :: cs).
    assert (HHe : H !!! e = h !!! e) by (unfold H; by rewrite lookup_total_app_l).
    assert (HlenH : length H = S (length h + length cs)).
    { unfold H. rewrite length_app. simpl. lia. }
    rewrite (bind_Ok _ _ _ tt
               (h ++ (pre ++ (k, VRef (length H)) :: rest) :: (cs ++ [h !!! e]))).
    + replace (pre ++ (k, VRef (length H)) :: rest)
        with ((pre ++ [(k, VRef (length H))]) ++ rest)
        by (by rewrite <- app_assoc).
      rewrite IH; [|done|];
        [|unfold dict_keys in *; rewrite <- app_assoc, map_app;
          by rewrite map_app in Hnd].
      rewrite <- !app_assoc. simpl. rewrite length_app. simpl.
      rewrite HlenH. unfold entry_of at 2. simpl.
      by replace (length h + (length cs + 1)) with (S (length h + length cs)) by lia.
    + rewrite (bind_Ok _ _ _ (length H) (H ++ [h !!! e])).
      * unfold setitem. f_equal. unfold H at 1 3.
        rewrite <- app_assoc. simpl.
        rewrite list_lookup_total_middle by done.
        rewrite dict_set_app_fresh.
        -- rewrite <- (Nat.add_0_r (length h)) at 1.
           by rewrite insert_app_r.
        -- unfold dict_keys in Hnd. rewrite map_app in Hnd.
           apply NoDup_app in Hnd as (_ & Hd & _).
           intros Hin. apply (Hd k Hin). simpl. apply elem_of_cons. by left.
      * rewrite <- HHe. apply create_recursively_entry. by rewrite HHe.
Qed.

Lemma table_ok_inv (h : heap) t :
  table_ok h t = true ->
  t < length h /\ 0 < length (h !!! t)
  /\ NoDup (dict_keys (h !!! t))
  /\ Forall (fun kv => entry_ok h kv.2 = true) (h !!! t).
Proof.
  unfold table_ok.
  intros [[[H1 H2]%andb_true_iff H3]%andb_true_iff H4]%andb_true_iff.
  apply Nat.ltb_lt in H1. apply negb_true_iff, Nat.eqb_neq in H2.
  repeat split; [done|lia|by apply nodupb_NoDup|].
  apply Forall_forall. intros kv Hin.
  rewrite forallb_forall in H4. apply H4.
  apply in_map_iff. exists kv. split; [done|]. by apply list_elem_of_In.
Qed.

(** The copy of a well-formed table sits at the first new location, its
    entries right after it in the order of the keys. *)
Lemma create_recursively_table depth (h : heap) t :
  table_ok h t = true ->
  create_recursively (S (S depth)) t h
  = (Ok (length h),
     h ++ relocate (S (length h)) (h !!! t) :: map (entry_of h) (h !!! t)).
Proof.
  intros (Ht & _ & Hnd & Hok)%table_ok_inv.
  rewrite create_recursively_S.
  unfold bind at 1. unfold deref at 1, gets at 1.
  unfold bind at 1. unfold alloc at 1.
  unfold bind at 1. unfold deref at 1, gets at 1.
  rewrite list_lookup_total_middle by done.
  pose proof (copy_loop depth h (h !!! t) [] [] Hok Hnd) as Hl.
  simpl in Hl. rewrite Nat.add_0_r in Hl.
  by rewrite (bind_Ok _ _ _ _ _ Hl).
Qed.

(** ** Validity *)

(** The shape of a code: even length between 2 and 8. *)
Definition code_shape (c : string) : bool :=
  (2 <=? String.length c) && (String.length c <=? 8)
  && (String.length c mod 2 =? 0).

(** [is_valid] is true exactly for a string of the right shape whose
    table entry is true. *)
Lemma is_valid_truthy (self : GICS) (H : heap) :
  truthy H (is_valid self H) = true <->
  exists c, _code self = VStr c /\ code_shape c = true
            /\ truthy H (dict_get_default (H !!! _definition self) c) = true.
Proof.
  unfold is_valid, code, py_and, code_shape.
  destruct (_code self) as [|b|z|c|l] eqn:Ec.
  - cbn [truthy]. split; [intros ?; discriminate|]. by intros (c & ? & _).
  - destruct b; cbn [truthy]; (split; [intros ?; discriminate|]);
      by intros (c & ? & _).
  - destruct (truthy H (VInt z)) eqn:E; rewrite ?E; cbn [truthy];
      (split; [intros ?; discriminate|]); by intros (c & ? & _).
  - destruct (truthy H (VStr c)) eqn:E0.
    + destruct (2 <=? String.length c) eqn:E2,
               (String.length c <=? 8) eqn:E8,
               (String.length c mod 2 =? 0) eqn:Em;
        cbn [truthy andb]; split;
        try (intros ?; discriminate);
        try (intros (c' & [= <-] & Hs & Ht); rewrite E2, E8, Em in Hs;
             first [discriminate | exact Ht]).
      intros Ht. exists c. by rewrite E2, E8, Em.
    + rewrite E0. split; [intros ?; discriminate|].
      intros (c' & [= <-] & Hs & _).
      cbn [truthy] in E0. apply negb_false_iff, Nat.eqb_eq in E0.
      rewrite E0 in Hs. discriminate.
  - destruct (truthy H (VRef l)) eqn:E; rewrite ?E; cbn [truthy];
      (split; [intros ?; discriminate|]); by intros (c & ? & _).
Qed.

(** A resolver whose code is [None] is invalid in every store. *)
Lemma is_valid_None (self : GICS) (H : heap) :
  _code self = VNone -> is_valid self H = VNone.
Proof. unfold is_valid, code, py_and. by intros ->. Qed.

(** When it is true, [is_valid] is the table entry of the code. *)
Lemma is_valid_entry (self : GICS) (H : heap) c :
  _code self = VStr c -> code_shape c = true ->
  is_valid self H = dict_get_default (H !!! _definition self) c.
Proof.
  unfold is_valid, code, py_and, code_shape. intros -> Hs.
  apply andb_true_iff in Hs as [[H2 H8]%andb_true_iff Hm].
  rewrite H2, H8, Hm. cbn [truthy].
  destruct (String.length c) eqn:E; [discriminate|]. done.
Qed.

(** ** Keys and positions *)

Fixpoint key_index (d : dict) (k : string) : option nat :=
  match d with
  | [] => None
  | (k', _) :: d' => if String.eqb k' k then Some 0 else S <$> key_index d' k
  end.

Lemma key_index_lookup d k i :
  key_index d k = Some i -> exists v, d !! i = Some (k, v).
Proof.
  revert i. induction d as [|[k' v'] d IH]; intros i; simpl; [done|].
  destruct (String.eqb k' k) eqn:E.
  - apply String.eqb_eq in E. intros [= <-]. subst. by exists v'.
  - destruct (key_index d k) as [j|]; simpl; [|done].
    intros [= <-]. by apply IH.
Qed.

Lemma key_index_None d k : key_index d k = None <-> k ∉ dict_keys d.
Proof.
  induction d as [|[k' v'] d IH]; simpl.
  - split; [intros _; apply not_elem_of_nil|done].
  - rewrite not_elem_of_cons. destruct (String.eqb k' k) eqn:E.
    + apply String.eqb_eq in E. split; [done|]. intros [? _]. congruence.
    + apply String.eqb_neq in E.
      destruct (key_index d k); simpl.
      * split; [done|]. intros [_ Hn]. by apply IH in Hn.
      * split; [|done]. intros _. split; [congruence|]. by apply IH.
Qed.

Lemma key_index_is_Some d k : k ∈ dict_keys d -> is_Some (key_index d k).
Proof.
  intros Hin. destruct (key_index d k) eqn:E; [done|].
  by apply key_index_None in E.
Qed.

Lemma dict_get_key_index d k i v :
  key_index d k = Some i -> d !! i = Some (k, v) -> dict_get d k = Some v.
Proof.
  revert i. induction d as [|[k' v'] d IH]; intros i; simpl; [done|].
  destruct (String.eqb k' k) eqn:E.
  - intros [= <-]. simpl. by intros [= _ ->].
  - destruct (key_index d k) as [j|] eqn:Ej; simpl; [|done].
    intros [= <-]. simpl. by apply IH.
Qed.

Lemma dict_get_relocate base items k :
  dict_get (relocate base items) k
  = (fun i => VRef (base + i)) <$> key_index items k.
Proof.
  revert base. induction items as [|[k' v'] items IH]; intros base; simpl; [done|].
  destruct (String.eqb k' k).
  - simpl. by rewrite Nat.add_0_r.
  - rewrite IH. destruct (key_index items k); simpl; [|done].
    do 2 f_equal. lia.
Qed.

Lemma dict_set_set d k v v' : dict_set (dict_set d k v) k v' = dict_set d k v'.
Proof.
  induction d as [|[k0 v0] d IH]; simpl.
  - by rewrite String.eqb_refl.
  - destruct (String.eqb k0 k) eqn:E; simpl; rewrite E; [done|]. by rewrite IH.
Qed.

(** ** The store of a resolver

    After [Map.create_recursively] the store is the old store [h], then
    the resolver's table, then one entry per key.  [_get_definition]
    changes entries only, and only by assigning their own key to [code]. *)

Definition resolver_heap (h : heap) (t : loc) (es : heap) : heap :=
  h ++ relocate (S (length h)) (h !!! t) :: es.

Definition marked (d : dict) (k : string) : list (string * value) :=
  dict_set d "code" (VStr k).

Definition entry_rel (h : heap) (kv : string * value) (d : dict) : Prop :=
  d = entry_of h kv \/ d = marked (entry_of h kv) kv.1.

Definition entries_inv (h : heap) (t : loc) (es : heap) : Prop :=
  Forall2 (entry_rel h) (h !!! t) es.

Definition is_marked (h : heap) (t : loc) (es : heap) (c : string) : Prop :=
  exists i kv, key_index (h !!! t) c = Some i /\ (h !!! t) !! i = Some kv
               /\ es !! i = Some (marked (entry_of h kv) c).

Section ResolverHeap.

Variables (h : heap) (t : loc).
Hypothesis Hok : table_ok h t = true.

Lemma resolver_heap_old es l :
  l < length h -> resolver_heap h t es !!! l = h !!! l.
Proof. intros Hl. unfold resolver_heap. by rewrite lookup_total_app_l. Qed.

Lemma resolver_heap_top es :
  resolver_heap h t es !!! length h = relocate (S (length h)) (h !!! t).
Proof. unfold resolver_heap. by rewrite list_lookup_total_middle. Qed.

Lemma resolver_heap_entry es i :
  resolver_heap h t es !!! (S (length h) + i) = es !!! i.
Proof.
  unfold resolver_heap. rewrite lookup_total_app_r by lia.
  replace (S (length h) + i - length h) with (S i) by lia. done.
Qed.

Lemma resolver_heap_setitem es i k v :
  setitem (S (length h) + i) k v (resolver_heap h t es)
  = (Ok tt, resolver_heap h t (<[i := dict_set (es !!! i) k v]> es)).
Proof.
  unfold setitem. rewrite resolver_heap_entry. unfold resolver_heap.
  replace (S (length h) + i) with (length h + S i) by lia.
  by rewrite insert_app_r.
Qed.

Lemma entries_inv_init : entries_inv h t (map (entry_of h) (h !!! t)).
Proof.
  unfold entries_inv. induction (h !!! t) as [|kv l IH]; simpl; constructor;
    [by left|done].
Qed.

Lemma entry_of_nonempty i kv :
  (h !!! t) !! i = Some kv -> 0 < length (entry_of h kv).
Proof.
  intros Hi. apply table_ok_inv in Hok as (_ & _ & _ & Hall).
  rewrite Forall_forall in Hall.
  assert (Hin : kv ∈ h !!! t) by (apply list_elem_of_lookup; eauto).
  apply Hall, entry_ok_inv in Hin as (e & He & _ & Hlen & _).
  unfold entry_of. by rewrite He.
Qed.

Lemma entries_inv_nonempty es i d :
  entries_inv h t es -> es !! i = Some d -> 0 < length d.
Proof.
  intros Hinv Hd.
  destruct (Forall2_lookup_r _ _ _ _ _ Hinv Hd) as (kv & Hkv & [->| ->]).
  - by eapply entry_of_nonempty.
  - apply dict_set_length_pos.
Qed.

Lemma entries_inv_length es : entries_inv h t es -> length es = length (h !!! t).
Proof. intros Hinv. symmetry. by eapply Forall2_length. Qed.

(** The table entry of a key, as the resolver sees it. *)
Lemma resolver_heap_get es c :
  dict_get_default (resolver_heap h t es !!! length h) c
  = match key_index (h !!! t) c with
    | Some i => VRef (S (length h) + i)
    | None => VNone
    end.
Proof.
  rewrite resolver_heap_top. unfold dict_get_default.
  rewrite dict_get_relocate. by destruct (key_index (h !!! t) c).
Qed.

Lemma resolver_heap_truthy es c :
  entries_inv h t es ->
  truthy (resolver_heap h t es)
         (dict_get_default (resolver_heap h t es !!! length h) c) = true
  <-> c ∈ dict_keys (h !!! t).
Proof.
  intros Hinv. rewrite resolver_heap_get.
  destruct (key_index (h !!! t) c) as [i|] eqn:E.
  - split; intros _.
    + destruct (decide (c ∈ dict_keys (h !!! t))) as [|Hn]; [done|].
      apply key_index_None in Hn. congruence.
    + cbn [truthy]. rewrite resolver_heap_entry.
      apply key_index_lookup in E as (v & Hv).
      destruct (Forall2_lookup_l _ _ _ _ _ Hinv Hv) as (d & Hd & _).
      rewrite (list_lookup_total_correct _ _ _ Hd).
      apply (entries_inv_nonempty _ _ _ Hinv) in Hd.
      apply negb_true_iff, Nat.eqb_neq. lia.
  - apply key_index_None in E. split; [discriminate|done].
Qed.

(** [is_valid] in the store of a resolver: the shape of the code and its
    presence among the keys of the table. *)
Lemma resolver_is_valid es version c levels :
  entries_inv h t es ->
  truthy (resolver_heap h t es)
         (is_valid (mkGICS version (length h) c levels) (resolver_heap h t es))
  = true
  <-> exists s, c = VStr s /\ code_shape s = true /\ s ∈ dict_keys (h !!! t).
Proof.
  intros Hinv. rewrite is_valid_truthy. simpl.
  split; intros (s & -> & Hs & Hk); exists s; (split; [done|]); (split; [done|]);
    by apply (resolver_heap_truthy es s Hinv).
Qed.

(** [_get_definition] marks the entry of a key of the table. *)
Lemma get_definition_Some es version c levels gics_code i :
  entries_inv h t es ->
  key_index (h !!! t) gics_code = Some i ->
  _get_definition (mkGICS version (length h) c levels) gics_code
                  (resolver_heap h t es)
  = (Ok (VRef (S (length h) + i)),
     resolver_heap h t (<[i := marked (es !!! i) gics_code]> es)).
Proof.
  intros Hinv Hi. unfold _get_definition. simpl _definition.
  unfold bind at 1. unfold deref, gets.
  pose proof (resolver_heap_get es gics_code) as Hg. rewrite Hi in Hg.
  unfold dict_get_default in Hg.
  destruct (dict_get (resolver_heap h t es !!! length h) gics_code) as [v|] eqn:E.
  - subst v. by rewrite (bind_Ok _ _ _ _ _ (resolver_heap_setitem es i _ _)).
  - rewrite resolver_heap_top, dict_get_relocate, Hi in E. discriminate.
Qed.

Lemma get_definition_None es version c levels gics_code :
  key_index (h !!! t) gics_code = None ->
  _get_definition (mkGICS version (length h) c levels) gics_code
                  (resolver_heap h t es)
  = (Raise (KeyError gics_code), resolver_heap h t es).
Proof.
  intros Hi. unfold _get_definition. simpl _definition.
  unfold bind at 1. unfold deref, gets.
  by rewrite resolver_heap_top, dict_get_relocate, Hi.
Qed.

Lemma entries_inv_mark es c i :
  entries_inv h t es -> key_index (h !!! t) c = Some i ->
  entries_inv h t (<[i := marked (es !!! i) c]> es).
Proof.
  intros Hinv Hi. unfold entries_inv.
  destruct (key_index_lookup _ _ _ Hi) as (v & Hv).
  rewrite <- (list_insert_id (h !!! t) i (c, v)) by done.
  apply Forall2_insert; [done|].
  destruct (Forall2_lookup_l _ _ _ _ _ Hinv Hv) as (d & Hd & Hrel).
  rewrite (list_lookup_total_correct _ _ _ Hd). right. simpl.
  destruct Hrel as [->| ->]; [done|]. simpl. apply dict_set_set.
Qed.

Lemma is_marked_mark es c i :
  entries_inv h t es -> key_index (h !!! t) c = Some i ->
  is_marked h t (<[i := marked (es !!! i) c]> es) c.
Proof.
  intros Hinv Hi. destruct (key_index_lookup _ _ _ Hi) as (v & Hv).
  exists i, (c, v). split; [done|]. split; [done|].
  destruct (Forall2_lookup_l _ _ _ _ _ Hinv Hv) as (d & Hd & Hrel).
  rewrite list_lookup_insert_eq by (by eapply lookup_lt_Some).
  rewrite (list_lookup_total_correct _ _ _ Hd). f_equal.
  destruct Hrel as [->| ->]; [done|]. simpl. apply dict_set_set.
Qed.

Lemma is_marked_mono es c c' i :
  key_index (h !!! t) c = Some i ->
  is_marked h t es c' -> is_marked h t (<[i := marked (es !!! i) c]> es) c'.
Proof.
  intros Hi (j & kv & Hj & Hkv & Hes). exists j, kv.
  split; [done|]. split; [done|].
  destruct (decide (i = j)) as [->|Hne].
  - rewrite list_lookup_insert_eq by (by eapply lookup_lt_Some).
    rewrite (list_lookup_total_correct _ _ _ Hes). f_equal.
    destruct (key_index_lookup _ _ _ Hi) as (v & Hv).
    destruct (key_index_lookup _ _ _ Hj) as (v' & Hv').
    assert (c = c') by congruence. subst c'. apply dict_set_set.
  - by rewrite list_lookup_insert_ne.
Qed.

End ResolverHeap.

(** ** Construction *)

Lemma substring_full s : substring 0 (String.length s) s = s.
Proof. induction s as [|a s IH]; simpl; [done|]. by rewrite IH. Qed.

(** A level of the list built by [__init__]: fetched when the code is
    long enough, [None] otherwise. *)
Definition fetch (b : bool) (self : GICS) (gics_code : string) : M value :=
  if b then _get_definition self gics_code else ret VNone.

(** What a fetched level is in the resolver's store. *)
Definition level_ok (h : heap) (t : loc) (es : heap) (b : bool)
  (gics_code : string) (v : value) : Prop :=
  if b then
    (exists i, key_index (h !!! t) gics_code = Some i
               /\ v = VRef (S (length h) + i))
    /\ is_marked h t es gics_code
  else v = VNone.

Lemma level_ok_mono h t es es' b c v :
  (forall c', is_marked h t es c' -> is_marked h t es' c') ->
  level_ok h t es b c v -> level_ok h t es' b c v.
Proof. unfold level_ok. destruct b; [|done]. intros Hm [? ?]. split; auto. Qed.

Lemma fetch_run (h : heap) t es version c levels b gics_code :
  entries_inv h t es ->
  (exists es' v,
      fetch b (mkGICS version (length h) c levels) gics_code (resolver_heap h t es)
      = (Ok v, resolver_heap h t es')
      /\ entries_inv h t es'
      /\ (forall c', is_marked h t es c' -> is_marked h t es' c')
      /\ level_ok h t es' b gics_code v)
  \/ (b = true /\ (gics_code ∉ dict_keys (h !!! t))
      /\ fetch b (mkGICS version (length h) c levels) gics_code
               (resolver_heap h t es)
         = (Raise (KeyError gics_code), resolver_heap h t es)).
Proof.
  intros Hinv. destruct b; simpl.
  - destruct (key_index (h !!! t) gics_code) as [i|] eqn:Hi.
    + left. exists (<[i := marked (es !!! i) gics_code]> es), (VRef (S (length h) + i)).
      split; [by apply get_definition_Some|].
      split; [by apply entries_inv_mark|].
      split; [intros c'; by apply is_marked_mono|].
      split; [by exists i|by apply is_marked_mark].
    + right. split; [done|]. split; [by apply key_index_None|].
      by apply get_definition_None.
  - left. exists es, VNone. repeat split; auto.
Qed.

(** The tables are closed under the prefixes of their codes. *)
Definition prefix_closed (keys : list string) : bool :=
  forallb (fun s =>
    negb (code_shape s)
    || forallb (fun j => negb (j <? String.length s)
                         || existsb (String.eqb (substring 0 j s)) keys)
               [2; 4; 6]) keys.

Lemma prefix_closed_elem keys s j :
  prefix_closed keys = true -> s ∈ keys -> code_shape s = true ->
  j ∈ [2; 4; 6] -> j < String.length s -> substring 0 j s ∈ keys.
Proof.
  unfold prefix_closed. rewrite forallb_forall. intros Hall Hs Hsh Hj Hlt.
  apply list_elem_of_In, Hall in Hs. rewrite Hsh in Hs. cbn [negb orb] in Hs.
  rewrite forallb_forall in Hs. apply list_elem_of_In, Hs in Hj.
  apply Nat.ltb_lt in Hlt. rewrite Hlt in Hj. cbn [negb orb] in Hj.
  apply existsb_exists in Hj as (x & Hx & Heq).
  apply String.eqb_eq in Heq. subst x. by apply list_elem_of_In.
Qed.

Section Construction.

Variables d_20140228 d_20160901 d_20180929 d_20230318 : loc.

Local Abbreviation DEFS :=
  (DEFINITIONS d_20140228 d_20160901 d_20180929 d_20230318).
Local Abbreviation init :=
  (GICS_init d_20140228 d_20160901 d_20180929 d_20230318).

Variables (h : heap) (t : loc) (version : string).
Hypothesis Hversion : dict_get DEFS version = Some (VRef t).
Hypothesis Hok : table_ok h t = true.

(** The first steps of [__init__]: the version is known and its table is
    copied. *)
Lemma init_copy c :
  init c version h =
  (let self := mkGICS version (length h) c None in
   valid <- gets (fun H => truthy H (is_valid self H)) ;;
   if valid then
     match c with
     | VStr s =>
         l1 <- fetch true self (substring 0 2 s) ;;
         l2 <- fetch (4 <=? String.length s) self (substring 0 4 s) ;;
         l3 <- fetch (6 <=? String.length s) self (substring 0 6 s) ;;
         l4 <- fetch (String.length s =? 8) self (substring 0 8 s) ;;
         ret (mkGICS version (length h) c (Some [l1; l2; l3; l4]))
     | _ => raise TypeError
     end
   else ret (mkGICS version (length h) VNone None))
    (resolver_heap h t (map (entry_of h) (h !!! t))).
Proof.
  unfold GICS_init, dict_get_default. rewrite Hversion.
  pose proof (table_ok_inv _ _ Hok) as (Ht & Hlen & _ & _).
  unfold bind at 1. unfold gets at 1. cbn [truthy].
  replace (length (h !!! t) =? 0) with false
    by (symmetry; apply Nat.eqb_neq; lia).
  cbn [negb].
  change recursion_limit with (S (S 998)).
  unfold bind at 1. by rewrite create_recursively_table.
Qed.

(** An invalid code: the store holds the copy and nothing else changed. *)
Lemma init_invalid c :
  ~ (exists s, c = VStr s /\ code_shape s = true /\ s ∈ dict_keys (h !!! t)) ->
  init c version h
  = (Ok (mkGICS version (length h) VNone None),
     resolver_heap h t (map (entry_of h) (h !!! t))).
Proof.
  intros Hn. rewrite init_copy. cbv zeta.
  unfold bind, gets.
  destruct (truthy _ (is_valid _ _)) eqn:E; [|done].
  exfalso. apply Hn.
  by apply (resolver_is_valid h t Hok _ version c None (entries_inv_init h t)).
Qed.

(** A valid code: every level that the code reaches is the entry of the
    corresponding prefix, marked with that prefix; construction fails only
    when a proper prefix is missing from the table. *)
Lemma init_valid s :
  code_shape s = true -> s ∈ dict_keys (h !!! t) ->
  match init (VStr s) version h with
  | (Ok r, H') =>
      exists es l1 l2 l3 l4,
        r = mkGICS version (length h) (VStr s) (Some [l1; l2; l3; l4])
        /\ H' = resolver_heap h t es
        /\ entries_inv h t es
        /\ level_ok h t es true (substring 0 2 s) l1
        /\ level_ok h t es (4 <=? String.length s) (substring 0 4 s) l2
        /\ level_ok h t es (6 <=? String.length s) (substring 0 6 s) l3
        /\ level_ok h t es (8 <=? String.length s) (substring 0 8 s) l4
  | (Raise e, H') =>
      exists j, j ∈ [2; 4; 6] /\ j < String.length s
                /\ (substring 0 j s ∉ dict_keys (h !!! t))
                /\ e = KeyError (substring 0 j s)
  end.
Proof.
  intros Hsh Hin. rewrite init_copy. cbv zeta.
  pose proof Hsh as Hsh'. unfold code_shape in Hsh'.
  apply andb_true_iff in Hsh' as [[H2 H8]%andb_true_iff Hm].
  apply Nat.leb_le in H2, H8.
  assert (Hfull : forall j, j = String.length s -> substring 0 j s ∈ dict_keys (h !!! t)).
  { intros j ->. by rewrite substring_full. }
  assert (H88 : (String.length s =? 8) = (8 <=? String.length s)).
  { destruct (Nat.eqb_spec (String.length s) 8), (Nat.leb_spec 8 (String.length s)); lia. }
  rewrite H88.
  unfold bind at 1. unfold gets at 1.
  replace (truthy _ (is_valid _ _)) with true
    by (symmetry;
        apply (resolver_is_valid h t Hok _ version (VStr s) None
                 (entries_inv_init h t)); by exists s).
  destruct (fetch_run h t _ version (VStr s) None true (substring 0 2 s)
              (entries_inv_init h t)) as [(es1 & l1 & R1 & I1 & M1 & L1)|(_ & N1 & R1)];
    [rewrite (bind_Ok _ _ _ _ _ R1)|rewrite (bind_Raise _ _ _ _ _ R1)]; cycle 1.
  { exists 2. split; [by repeat constructor|]. split; [|done].
    destruct (decide (String.length s = 2)) as [E|]; [|lia].
    by specialize (Hfull 2 (eq_sym E)). }
  destruct (fetch_run h t es1 version (VStr s) None (4 <=? String.length s)
              (substring 0 4 s) I1) as [(es2 & l2 & R2 & I2 & M2 & L2)|(B2 & N2 & R2)];
    [rewrite (bind_Ok _ _ _ _ _ R2)|rewrite (bind_Raise _ _ _ _ _ R2)]; cycle 1.
  { exists 4. split; [by repeat constructor|]. split; [|done]. apply Nat.leb_le in B2.
    destruct (decide (String.length s = 4)) as [E|]; [|lia].
    by specialize (Hfull 4 (eq_sym E)). }
  destruct (fetch_run h t es2 version (VStr s) None (6 <=? String.length s)
              (substring 0 6 s) I2) as [(es3 & l3 & R3 & I3 & M3 & L3)|(B3 & N3 & R3)];
    [rewrite (bind_Ok _ _ _ _ _ R3)|rewrite (bind_Raise _ _ _ _ _ R3)]; cycle 1.
  { exists 6. split; [by repeat constructor|]. split; [|done]. apply Nat.leb_le in B3.
    destruct (decide (String.length s = 6)) as [E|]; [|lia].
    by specialize (Hfull 6 (eq_sym E)). }
  destruct (fetch_run h t es3 version (VStr s) None (8 <=? String.length s)
              (substring 0 8 s) I3) as [(es4 & l4 & R4 & I4 & M4 & L4)|(B4 & N4 & R4)];
    [rewrite (bind_Ok _ _ _ _ _ R4)|rewrite (bind_Raise _ _ _ _ _ R4)]; cycle 1.
  { exfalso. apply Nat.leb_le in B4. apply N4, Hfull. lia. }
  unfold ret. exists es4, l1, l2, l3, l4.
  do 3 (split; [done|]).
  split; [eapply level_ok_mono; [|exact L1]; auto|].
  split; [eapply level_ok_mono; [|exact L2]; auto|].
  split; [eapply level_ok_mono; [|exact L3]; auto|done].
Qed.

End Construction.

(** ** The frame of a construction

    Whatever the store holds, [Map.create_recursively] and [__init__]
    only append to it and assign into the objects they have appended. *)

(** Every dictionary referred to by [top] was allocated at or after [n]. *)
Definition fresh_refs (n : nat) (top : dict) : Prop :=
  forall k e, dict_get top k = Some (VRef e) -> n <= e.

Definition frame_post {A} (H : heap) (out : result A * heap) : Prop :=
  match out with
  | (Ok _, H') =>
      exists top more, H' = H ++ top :: more /\ fresh_refs (length H) top
  | (Raise e, H') => e = RecursionError /\ exists ext, H' = H ++ ext
  end.

Lemma setitem_top (H : heap) top more k v :
  setitem (length H) k v (H ++ top :: more)
  = (Ok tt, H ++ dict_set top k v :: more).
Proof.
  unfold setitem. rewrite list_lookup_total_middle by done.
  rewrite <- (Nat.add_0_r (length H)) at 1. by rewrite insert_app_r.
Qed.

Lemma copy_loop_frame depth (H : heap)
  (IH : forall data H0,
      match create_recursively depth data H0 with
      | (Ok p, H') => p = length H0 /\ frame_post H0 (Ok p, H')
      | (Raise e, H') => frame_post H0 (@Raise loc e, H')
      end)
  (rest : dict) :
  forall top more,
    (forall k e, dict_get top k = Some (VRef e) ->
                 length H <= e \/ (k, VRef e) ∈ rest) ->
    frame_post H
      (for_each rest (copy_body (create_recursively depth) (length H))
         (H ++ top :: more)).
Proof.
  induction rest as [|[k v] rest IHrest]; intros top more Hpre.
  - simpl. exists top, more. split; [done|]. intros k e Hke.
    destruct (Hpre k e Hke) as [?|Hin]; [done|]. by apply elem_of_nil in Hin.
  - assert (Hskip : forall k0 e0, dict_get top k0 = Some (VRef e0) ->
                      scalar v = true ->
                      length H <= e0 \/ (k0, VRef e0) ∈ rest).
    { intros k0 e0 Hke Hsc. destruct (Hpre k0 e0 Hke) as [?|Hin]; [by left|].
      apply elem_of_cons in Hin as [[= -> <-]|?]; [done|by right]. }
    cbn [for_each].
    destruct v as [| | | |l];
      try (rewrite (bind_Ok _ _ _ tt (H ++ top :: more)) by done;
           apply IHrest; intros k0 e0 Hke; by apply Hskip).
    cbn [copy_body]. unfold bind at 1 2.
    specialize (IH l (H ++ top :: more)).
    destruct (create_recursively depth l (H ++ top :: more)) as [[c|e] H1].
    + destruct IH as (-> & top2 & more2 & -> & _).
      rewrite <- app_assoc. cbn [app]. rewrite setitem_top.
      apply IHrest. intros k0 e0 Hke.
      destruct (String.eqb_spec k k0) as [<-|Hne].
      * rewrite dict_get_set_eq in Hke. injection Hke as <-. left.
        rewrite length_app. lia.
      * rewrite dict_get_set_ne in Hke by done.
        destruct (Hpre k0 e0 Hke) as [?|Hin]; [by left|].
        apply elem_of_cons in Hin as [[= -> _]|?]; [done|by right].
    + destruct IH as (-> & ext & ->). split; [done|].
      exists (top :: more ++ ext). by rewrite <- app_assoc.
Qed.

Lemma create_recursively_frame depth :
  forall data H,
    match create_recursively depth data H with
    | (Ok p, H') => p = length H /\ frame_post H (Ok p, H')
    | (Raise e, H') => frame_post H (@Raise loc e, H')
    end.
Proof.
  induction depth as [|depth IH]; intros data H.
  - cbn. split; [done|]. exists []. by rewrite app_nil_r.
  - rewrite create_recursively_S.
    unfold bind at 1. unfold deref at 1, gets at 1.
    unfold bind at 1. unfold alloc at 1.
    unfold bind at 1. unfold deref at 1, gets at 1.
    rewrite list_lookup_total_middle by done.
    pose proof (copy_loop_frame depth H IH (H !!! data) (H !!! data) []) as Hl.
    unfold bind.
    destruct (for_each _ _ _) as [[[]|e] H1].
    + split; [done|]. apply Hl. intros k e Hke. right.
      by apply dict_get_elem_of.
    + apply Hl. intros k e' Hke. right. by apply dict_get_elem_of.
Qed.

(** A computation that, started in a store [h ++ top :: more] whose
    [top] refers to new objects only, ends in such a store and does not
    raise [ValueError]. *)
Definition keeps (h : heap) {A} (m : M A) : Prop :=
  forall top more, fresh_refs (length h) top ->
    match m (h ++ top :: more) with
    | (r, H') =>
        (forall msg, r <> Raise (ValueError msg))
        /\ exists top' more',
            H' = h ++ top' :: more' /\ fresh_refs (length h) top'
    end.

Lemma keeps_ret (h : heap) {A} (a : A) : keeps h (ret a).
Proof. intros top more Hf. cbn. split; [done|]. by exists top, more. Qed.

Lemma keeps_gets (h : heap) {A} (f : heap -> A) : keeps h (gets f).
Proof. intros top more Hf. cbn. split; [done|]. by exists top, more. Qed.

Lemma keeps_raise (h : heap) {A} (e : exn) :
  (forall msg, e <> ValueError msg) -> keeps h (@raise A e).
Proof.
  intros He top more Hf. cbn. split; [|by exists top, more].
  intros msg [= ->]. by apply (He msg).
Qed.

Lemma keeps_bind (h : heap) {A B} (m : M A) (k : A -> M B) :
  keeps h m -> (forall a, keeps h (k a)) -> keeps h (bind m k).
Proof.
  intros Hm Hk top more Hf. unfold bind. specialize (Hm top more Hf).
  destruct (m (h ++ top :: more)) as [[a|e] H1];
    destruct Hm as (Hne & top' & more' & -> & Hf').
  - by apply Hk.
  - split; [|by exists top', more'].
    intros msg [= ->]. by apply (Hne msg).
Qed.

Lemma keeps_get_definition (h : heap) (self : GICS) gics_code :
  _definition self = length h -> keeps h (_get_definition self gics_code).
Proof.
  intros Hdef top more Hf. unfold _get_definition. rewrite Hdef.
  unfold bind at 1. unfold deref, gets.
  rewrite list_lookup_total_middle by done.
  destruct (dict_get top gics_code) as [[| | | |e]|] eqn:E;
    try (cbn; split; [done|]; by exists top, more).
  pose proof (Hf _ _ E) as He.
  unfold bind, setitem, ret. split; [done|].
  rewrite insert_app_r_alt by done.
  destruct (e - length h) as [|j] eqn:Ej; cbn [insert list_insert].
  - assert (e = length h) as -> by lia.
    rewrite list_lookup_total_middle by done.
    eexists _, more. split; [done|]. intros k e' Hk.
    destruct (String.eqb_spec "code" k) as [<-|Hne].
    + by rewrite dict_get_set_eq in Hk.
    + rewrite dict_get_set_ne in Hk by done. by apply (Hf k).
  - by eexists top, _.
Qed.

Section Frame.

Variables d_20140228 d_20160901 d_20180929 d_20230318 : loc.

Local Abbreviation DEFS :=
  (DEFINITIONS d_20140228 d_20160901 d_20180929 d_20230318).
Local Abbreviation init :=
  (GICS_init d_20140228 d_20160901 d_20180929 d_20230318).

(** [__init__] in any store: the old store is a prefix of the new one, and
    [ValueError] is raised only for a version whose table is missing or
    false, before anything is allocated. *)
Lemma init_frame (c : value) (version : string) (h : heap) :
  match init c version h with
  | (r, H') =>
      (exists ext, H' = h ++ ext)
      /\ (forall msg, r = Raise (ValueError msg) ->
            truthy h (dict_get_default DEFS version) = false)
  end.
Proof.
  unfold GICS_init. unfold bind at 1. unfold gets at 1.
  destruct (truthy h (dict_get_default DEFS version)) eqn:Et; cbn [negb].
  - destruct (dict_get_default DEFS version) as [| | | |t];
      try (cbn; split; [exists []; by rewrite app_nil_r|done]).
    unfold bind at 1.
    pose proof (create_recursively_frame recursion_limit t h) as Hc.
    destruct (create_recursively recursion_limit t h) as [[p|e] H1].
    + destruct Hc as (-> & top & more & -> & Hf).
      match goal with
      | |- match ?m0 (h ++ top :: more) with _ => _ end => set (m := m0)
      end.
      assert (Hk : keeps h m).
      { unfold m. apply keeps_bind; [apply keeps_gets|]. intros valid.
        destruct valid; [|apply keeps_ret].
        destruct c; try (by apply keeps_raise).
        apply keeps_bind; [by apply keeps_get_definition|intros l1].
        apply keeps_bind;
          [destruct (4 <=? _); [by apply keeps_get_definition|apply keeps_ret]
          |intros l2].
        apply keeps_bind;
          [destruct (6 <=? _); [by apply keeps_get_definition|apply keeps_ret]
          |intros l3].
        apply keeps_bind;
          [destruct (_ =? 8); [by apply keeps_get_definition|apply keeps_ret]
          |intros l4].
        apply keeps_ret. }
      specialize (Hk top more Hf).
      destruct (m (h ++ top :: more)) as [r H2].
      destruct Hk as (Hne & top' & more' & -> & _).
      split; [by eexists|]. intros msg ->. by destruct (Hne msg).
    + destruct Hc as (-> & ext & ->). split; [by eexists|done].
  - cbn. split; [exists []; by rewrite app_nil_r|done].
Qed.

End Frame.

(** ** Children

    [children] is described by three functions of the store: the keys it
    selects, the record it builds for a key, and the records of a list of
    keys up to the first failure. *)

Definition child_keys (self : GICS) (H : heap) : result (list string) :=
  if truthy H (is_valid self H) then
    match _code self with
    | VStr c =>
        Ok (filter (fun k => String.prefix c k
                             && (String.length k =? String.length c + 2))
                   (dict_keys (H !!! _definition self)))
    | _ => Raise TypeError
    end
  else Ok (filter (fun k => String.length k =? 2)
                  (dict_keys (H !!! _definition self))).

Definition child_row (H : heap) (table : dict) (k : string)
  : result (list (string * value)) :=
  match dict_get table k with
  | None => Raise (KeyError k)
  | Some (VRef e) =>
      Ok [("code", VStr k);
          ("name", dict_get_default (H !!! e) "name");
          ("description", dict_get_default (H !!! e) "description")]
  | Some _ => Raise (AttributeError "name")
  end.

Fixpoint child_rows (H : heap) (table : dict) (ks : list string)
  : result (list (list (string * value))) :=
  match ks with
  | [] => Ok []
  | k :: ks' =>
      match child_row H table k with
      | Raise e => Raise e
      | Ok row =>
          match child_rows H table ks' with
          | Ok rows => Ok (row :: rows)
          | Raise e => Raise e
          end
      end
  end.

(** The body of the [map] of [children]. *)
Definition child_body (table : loc) (k : string) : M value :=
  e1 <- getitem table k ;;
  name <- getattr e1 "name" ;;
  e2 <- getitem table k ;;
  description <- getattr e2 "description" ;;
  m <- alloc [("code", VStr k); ("name", name); ("description", description)] ;;
  ret (VRef m).

(** The objects a table refers to are in the store. *)
Definition table_closed (H : heap) (l : loc) : Prop :=
  l < length H /\ forall k e, dict_get (H !!! l) k = Some (VRef e) -> e < length H.

Lemma getitem_run (H : heap) table k acc :
  table < length H ->
  getitem table k (H ++ acc)
  = match dict_get (H !!! table) k with
    | Some v => (Ok v, H ++ acc)
    | None => (Raise (KeyError k), H ++ acc)
    end.
Proof.
  intros Hl. unfold getitem, bind, deref, gets.
  rewrite lookup_total_app_l by done. by destruct (dict_get _ _).
Qed.

Lemma getattr_run (H : heap) e name acc :
  e < length H ->
  getattr (VRef e) name (H ++ acc)
  = (Ok (dict_get_default (H !!! e) name), H ++ acc).
Proof.
  intros Hl. unfold getattr, bind, deref, gets, ret.
  by rewrite lookup_total_app_l.
Qed.

Lemma child_body_run (H : heap) table k acc :
  table_closed H table ->
  child_body table k (H ++ acc)
  = match child_row H (H !!! table) k with
    | Ok row => (Ok (VRef (length H + length acc)), H ++ acc ++ [row])
    | Raise e => (Raise e, H ++ acc)
    end.
Proof.
  intros [Hl Hrefs]. unfold child_body, child_row.
  pose proof (getitem_run H table k acc Hl) as Hg.
  destruct (dict_get (H !!! table) k) as [v|] eqn:E;
    [|by rewrite (bind_Raise _ _ _ _ _ Hg)].
  rewrite (bind_Ok _ _ _ _ _ Hg).
  destruct v as [| | | |e];
    try (by rewrite (bind_Raise _ _ _ (AttributeError "name") (H ++ acc))).
  pose proof (Hrefs _ _ E) as He.
  rewrite (bind_Ok _ _ _ _ _ (getattr_run H e "name" acc He)).
  rewrite (bind_Ok _ _ _ _ _ Hg).
  rewrite (bind_Ok _ _ _ _ _ (getattr_run H e "description" acc He)).
  unfold bind, alloc, ret. by rewrite length_app, app_assoc.
Qed.

Lemma child_rows_length H table ks rows :
  child_rows H table ks = Ok rows -> length rows = length ks.
Proof.
  revert rows. induction ks as [|k ks IH]; intros rows; simpl.
  - by intros [= <-].
  - destruct (child_row H table k); [|done].
    destruct (child_rows H table ks); [|done].
    intros [= <-]. simpl. f_equal. by apply IH.
Qed.

Lemma map_each_child_rows (H : heap) table ks :
  table_closed H table ->
  forall acc,
    match map_each ks (child_body table) (H ++ acc) with
    | (Ok vs, H2) =>
        exists rows, child_rows H (H !!! table) ks = Ok rows
                     /\ vs = map VRef (seq (length H + length acc) (length ks))
                     /\ H2 = H ++ acc ++ rows
    | (Raise e, H2) =>
        child_rows H (H !!! table) ks = Raise e /\ exists ext, H2 = H ++ ext
    end.
Proof.
  intros Hcl. induction ks as [|k ks IH]; intros acc.
  - cbn. exists []. by rewrite app_nil_r.
  - cbn [map_each child_rows]. unfold bind at 1.
    rewrite child_body_run by done.
    destruct (child_row H (H !!! table) k) as [row|e]; [|split; [done|by eexists]].
    unfold bind at 1. specialize (IH (acc ++ [row])).
    destruct (map_each ks (child_body table) (H ++ acc ++ [row])) as [[vs|e] H2].
    + destruct IH as (rows & -> & -> & ->). cbn. exists (row :: rows).
      split; [done|]. rewrite length_app, <- app_assoc. cbn.
      split; [|done]. do 3 f_equal. lia.
    + destruct IH as (-> & ext & ->). split; [done|by eexists].
Qed.

(** [children] in a store that holds the table and its entries. *)
Lemma children_run (self : GICS) (H : heap) :
  table_closed H (_definition self) ->
  match children self H with
  | (Ok vs, H2) =>
      exists ks rows,
        child_keys self H = Ok ks
        /\ child_rows H (H !!! _definition self) ks = Ok rows
        /\ vs = map VRef (seq (length H) (length ks))
        /\ H2 = H ++ rows
  | (Raise e, H2) =>
      (child_keys self H = Raise e
       \/ exists ks, child_keys self H = Ok ks
                     /\ child_rows H (H !!! _definition self) ks = Raise e)
      /\ exists ext, H2 = H ++ ext
  end.
Proof.
  intros Hcl. unfold children, child_keys.
  unfold bind at 1. unfold gets at 1.
  unfold bind at 1. unfold deref at 1, gets at 1.
  unfold bind at 1.
  assert (Hrun : forall ks,
    match map_each ks (child_body (_definition self)) H with
    | (Ok vs, H2) =>
        exists rows, child_rows H (H !!! _definition self) ks = Ok rows
                     /\ vs = map VRef (seq (length H) (length ks))
                     /\ H2 = H ++ rows
    | (Raise e, H2) =>
        child_rows H (H !!! _definition self) ks = Raise e
        /\ exists ext, H2 = H ++ ext
    end).
  { intros ks. pose proof (map_each_child_rows H _ ks Hcl []) as Hm.
    rewrite app_nil_r in Hm. cbn [length app] in Hm.
    by rewrite Nat.add_0_r in Hm. }
  destruct (truthy H (is_valid self H)).
  - destruct (_code self) as [| | |c|];
      try (cbn; split; [by left|exists []; by rewrite app_nil_r]).
    cbn [ret]. specialize (Hrun (filter (fun k => String.prefix c k
                             && (String.length k =? String.length c + 2))
                   (dict_keys (H !!! _definition self)))).
    fold (child_body (_definition self)).
    destruct (map_each _ _ H) as [[vs|e] H2].
    + destruct Hrun as (rows & ? & ? & ?). by eexists _, rows.
    + destruct Hrun as (? & ?). split; [right; by eexists|done].
  - cbn [ret]. specialize (Hrun (filter (fun k => String.length k =? 2)
                   (dict_keys (H !!! _definition self)))).
    fold (child_body (_definition self)).
    destruct (map_each _ _ H) as [[vs|e] H2].
    + destruct Hrun as (rows & ? & ? & ?). by eexists _, rows.
    + destruct Hrun as (? & ?). split; [right; by eexists|done].
Qed.

(** The dictionaries behind a list of references. *)
Definition contents (H : heap) (vs : list value) : heap :=
  map (fun v => match v with VRef l => H !!! l | _ => [] end) vs.

Lemma contents_new (H rows : heap) :
  contents (H ++ rows) (map VRef (seq (length H) (length rows))) = rows.
Proof.
  unfold contents. rewrite map_map.
  apply list_eq. intros i. rewrite list_lookup_fmap.
  destruct (rows !! i) as [row|] eqn:E.
  - rewrite lookup_seq_lt by (by eapply lookup_lt_Some). cbn.
    rewrite lookup_total_app_r by lia.
    replace (length H + i - length H) with i by lia.
    by rewrite (list_lookup_total_correct _ _ _ E).
  - rewrite lookup_seq_ge; [done|]. by apply lookup_ge_None.
Qed.

(** The entry of a key in a table of [gics.definitions], and the record
    that [children] returns for it. *)
Definition table_entry (h : heap) (t : loc) (k : string)
  : list (string * value) :=
  match dict_get (h !!! t) k with Some (VRef e) => h !!! e | _ => [] end.

Definition child_record (h : heap) (t : loc) (k : string)
  : list (string * value) :=
  [("code", VStr k);
   ("name", dict_get_default (table_entry h t k) "name");
   ("description", dict_get_default (table_entry h t k) "description")].

Lemma dict_get_default_marked d c name :
  name <> "code" ->
  dict_get_default (marked d c) name = dict_get_default d name.
Proof.
  intros Hne. unfold dict_get_default, marked.
  by rewrite dict_get_set_ne by done.
Qed.

Section ResolverChildren.

Variables (h : heap) (t : loc).
Hypothesis Hok : table_ok h t = true.

Lemma resolver_table_closed es :
  entries_inv h t es -> table_closed (resolver_heap h t es) (length h).
Proof.
  intros Hinv. unfold table_closed.
  assert (Hlen : length (resolver_heap h t es) = S (length h + length es)).
  { unfold resolver_heap. rewrite length_app. cbn. lia. }
  split; [lia|]. intros k e. rewrite resolver_heap_top, dict_get_relocate.
  destruct (key_index (h !!! t) k) as [i|] eqn:E; [|done].
  intros [= <-]. apply key_index_lookup in E as (v & Hv).
  apply lookup_lt_Some in Hv.
  rewrite Hlen, (entries_inv_length h t es Hinv). lia.
Qed.

Lemma resolver_child_row es k :
  entries_inv h t es -> k ∈ dict_keys (h !!! t) ->
  child_row (resolver_heap h t es) (relocate (S (length h)) (h !!! t)) k
  = Ok (child_record h t k).
Proof.
  intros Hinv Hk. unfold child_row, child_record, table_entry.
  rewrite dict_get_relocate.
  destruct (key_index_is_Some _ _ Hk) as (i & Hi). rewrite Hi. cbn [fmap option_fmap option_map].
  destruct (key_index_lookup _ _ _ Hi) as (v & Hv).
  rewrite (dict_get_key_index _ _ _ _ Hi Hv).
  destruct (Forall2_lookup_l _ _ _ _ _ Hinv Hv) as (d & Hd & Hrel).
  rewrite resolver_heap_entry, (list_lookup_total_correct _ _ _ Hd).
  assert (Hent : entry_of h (k, v)
                 = match v with VRef e => h !!! e | _ => [] end) by done.
  rewrite <- Hent.
  destruct Hrel as [->| ->]; [done|].
  by rewrite !dict_get_default_marked.
Qed.

Lemma resolver_child_rows es ks :
  entries_inv h t es -> Forall (fun k => k ∈ dict_keys (h !!! t)) ks ->
  child_rows (resolver_heap h t es) (relocate (S (length h)) (h !!! t)) ks
  = Ok (map (child_record h t) ks).
Proof.
  intros Hinv. induction 1 as [|k ks Hk Hks IH]; [done|].
  cbn [child_rows map]. by rewrite resolver_child_row, IH.
Qed.

(** The keys that [children] selects for a resolver code. *)
Definition selected (c : value) (keys : list string) : list string :=
  match c with
  | VStr s => filter (fun k => String.prefix s k
                               && (String.length k =? String.length s + 2)) keys
  | _ => filter (fun k => String.length k =? 2) keys
  end.

Lemma resolver_children es version c levels :
  entries_inv h t es ->
  c = VNone
  \/ (exists s, c = VStr s /\ code_shape s = true /\ s ∈ dict_keys (h !!! t)) ->
  exists vs H2,
    children (mkGICS version (length h) c levels) (resolver_heap h t es)
    = (Ok vs, H2)
    /\ contents H2 vs
       = map (child_record h t) (selected c (dict_keys (h !!! t)))
    /\ exists rows, H2 = resolver_heap h t es ++ rows.
Proof.
  intros Hinv Hc.
  set (self := mkGICS version (length h) c levels).
  set (H := resolver_heap h t es).
  assert (Hkeys : child_keys self H = Ok (selected c (dict_keys (h !!! t)))).
  { unfold child_keys, selected. cbn [_definition _code self].
    unfold H. rewrite resolver_heap_top, dict_keys_relocate.
    destruct Hc as [->|(s & -> & Hs & Hk)].
    - by rewrite is_valid_None.
    - replace (truthy _ (is_valid _ _)) with true; [done|].
      symmetry. apply (resolver_is_valid h t Hok es version (VStr s) _ Hinv).
      by exists s. }
  assert (Hrows : child_rows H (H !!! _definition self)
                    (selected c (dict_keys (h !!! t)))
                  = Ok (map (child_record h t)
                          (selected c (dict_keys (h !!! t))))).
  { cbn [_definition self]. unfold H. rewrite resolver_heap_top.
    apply resolver_child_rows; [done|]. apply Forall_forall. intros k.
    unfold selected. destruct c; rewrite list_elem_of_filter; tauto. }
  pose proof (children_run self H (resolver_table_closed es Hinv)) as Hrun.
  destruct (children self H) as [[vs|e] H2].
  - destruct Hrun as (ks & rows & Hks & Hr & -> & ->).
    rewrite Hkeys in Hks. injection Hks as <-.
    rewrite Hrows in Hr. injection Hr as <-.
    exists (map VRef (seq (length H) (length (selected c (dict_keys (h !!! t)))))).
    eexists. split; [done|]. split; [|by eexists].
    rewrite <- (length_map (child_record h t)). apply contents_new.
  - destruct Hrun as ([Hk|(ks & Hk & Hr)] & _); [congruence|].
    rewrite Hkeys in Hk. injection Hk as <-. congruence.
Qed.

End ResolverChildren.

(** ** Validity of a constructed resolver *)

(** A valid code, in the words of the data model: a non-empty string of
    even length between 2 and 8 that is a key of the table. *)
Definition valid_code (keys : list string) (c : value) : Prop :=
  exists s, c = VStr s /\ s <> "" /\ Nat.Even (String.length s)
            /\ 2 <= String.length s <= 8 /\ s ∈ keys.

Lemma code_shape_spec s :
  code_shape s = true
  <-> s <> "" /\ Nat.Even (String.length s) /\ 2 <= String.length s <= 8.
Proof.
  unfold code_shape. rewrite !andb_true_iff, !Nat.leb_le, Nat.eqb_eq. split.
  - intros [[H2 H8] Hm]. split; [intros ->; simpl in H2; lia|].
    split; [|lia]. exists (String.length s / 2).
    pose proof (Nat.div_mod_eq (String.length s) 2). lia.
  - intros (_ & [m Hm] & H2 & H8). split; [lia|].
    rewrite Hm, Nat.mul_comm. apply Nat.Div0.mod_mul.
Qed.

Lemma valid_code_shape keys c :
  valid_code keys c
  <-> exists s, c = VStr s /\ code_shape s = true /\ s ∈ keys.
Proof.
  unfold valid_code. split.
  - intros (s & -> & H0 & He & Hl & Hk). exists s. split; [done|].
    split; [by apply code_shape_spec|done].
  - intros (s & -> & Hs & Hk). apply code_shape_spec in Hs as (? & ? & ?).
    by exists s.
Qed.

Lemma valid_code_dec keys c : valid_code keys c \/ ~ valid_code keys c.
Proof.
  rewrite valid_code_shape. destruct c as [| | |s|]; try (right; by intros (? & ? & _)).
  destruct (code_shape s) eqn:Hs; [|right; intros (? & [= <-] & ? & _); congruence].
  destruct (decide (s ∈ keys)); [left; by exists s|].
  right. by intros (? & [= <-] & _ & ?).
Qed.

(** An invalid code, case by case: absent, empty, not a string, of odd
    length, too short, too long, or missing from the table. *)
Definition invalid_code (keys : list string) (c : value) : Prop :=
  c = VNone
  \/ c = VStr ""
  \/ (forall s, c <> VStr s)
  \/ exists s, c = VStr s
               /\ (Nat.Odd (String.length s) \/ String.length s < 2
                   \/ 8 < String.length s \/ s ∉ keys).

Lemma invalid_code_not_valid keys c : invalid_code keys c -> ~ valid_code keys c.
Proof.
  intros [-> | [-> | [Hns | (s & -> & Hs)]]] (s' & Heq & H0 & He & Hl & Hk);
    try discriminate.
  - injection Heq as <-. done.
  - by apply (Hns s').
  - injection Heq as <-. destruct Hs as [Ho|[?|[?|?]]]; try lia; try done.
    by apply (Nat.Even_Odd_False (String.length s)).
Qed.

Lemma level_invalid (r : GICS) (n : value) (H : heap) :
  truthy H (is_valid r H) = false -> level r n H = Ok VNone.
Proof. intros E. unfold level. by rewrite E. Qed.

Lemma level_not_int (r : GICS) (n : value) (H : heap) :
  (forall z, as_int n = Some z -> (z < 1 \/ 4 < z)%Z) -> level r n H = Ok VNone.
Proof.
  intros Hn. unfold level.
  destruct (negb (truthy H (is_valid r H)) || negb (truthy H n)); [done|].
  destruct (as_int n) as [z|]; [|done].
  destruct (Hn z eq_refl) as [Hz|Hz].
  - apply Z.ltb_lt in Hz. by rewrite Hz.
  - apply Z.gtb_lt in Hz. rewrite Hz. by rewrite orb_true_r.
Qed.

Lemma level_ok_code (h : heap) t es c v :
  level_ok h t es true c v ->
  exists e, v = VRef e
            /\ dict_get (resolver_heap h t es !!! e) "code" = Some (VStr c).
Proof.
  intros [(i & Hi & ->) (i' & kv & Hi' & _ & Hes)].
  assert (i' = i) as -> by congruence.
  exists (S (length h) + i). split; [done|].
  rewrite resolver_heap_entry, (list_lookup_total_correct _ _ _ Hes).
  apply dict_get_set_eq.
Qed.

Lemma level_run (h : heap) t (Hok : table_ok h t = true) es version s ls k :
  entries_inv h t es -> code_shape s = true -> s ∈ dict_keys (h !!! t) ->
  1 <= k <= 4 ->
  level (mkGICS version (length h) (VStr s) (Some ls)) (VInt (Z.of_nat k))
        (resolver_heap h t es)
  = match ls !! (k - 1) with Some v => Ok v | None => Raise IndexError end.
Proof.
  intros Hinv Hs Hk Hrange. unfold level.
  replace (truthy _ (is_valid _ _)) with true
    by (symmetry; apply (resolver_is_valid h t Hok es version (VStr s) _ Hinv);
        by exists s).
  cbn [truthy negb orb as_int _levels].
  replace (Z.of_nat k =? 0)%Z with false by (symmetry; apply Z.eqb_neq; lia).
  replace (Z.of_nat k <? 1)%Z with false by (symmetry; apply Z.ltb_ge; lia).
  replace (Z.of_nat k >? 4)%Z with false
    by (symmetry; rewrite Z.gtb_ltb; apply Z.ltb_ge; lia).
  cbn [negb orb].
  by replace (Z.to_nat (Z.of_nat k - 1)) with (k - 1) by lia.
Qed.

(** ** Strings and comparisons *)

Lemma prefix_app (a b : string) :
  String.prefix a b = true <-> exists rest, b = a +:+ rest.
Proof.
  revert b. induction a as [|x a IH]; intros b.
  - split; [intros _; by exists b|intros _; by destruct b].
  - destruct b as [|y b].
    + split; [discriminate|]. intros (rest & Hr). discriminate Hr.
    + cbn [String.prefix]. destruct (ascii_dec x y) as [->|Hne].
      * rewrite IH. split; intros (rest & Hr); exists rest.
        -- by rewrite Hr.
        -- by injection Hr.
      * split; [discriminate|]. intros (rest & Hr). injection Hr as ? _.
        congruence.
Qed.

Lemma py_eq_str depth (H : heap) a b :
  py_eq depth H (VStr a) (VStr b) = Ok (String.eqb a b).
Proof. by destruct depth. Qed.

Lemma py_eq_None depth (H : heap) : py_eq depth H VNone VNone = Ok true.
Proof. by destruct depth. Qed.

(** The truth of [is_within], and of [is_immediate_within] with the
    further condition on the lengths. *)
Definition within (a b : GICS) (H : heap) : Prop :=
  truthy H (is_valid a H) = true /\ truthy H (is_valid b H) = true
  /\ code a <> code b
  /\ exists ca cb rest, code a = VStr ca /\ code b = VStr cb /\ ca = cb +:+ rest.

Definition immediate_within (a b : GICS) (H : heap) : Prop :=
  within a b H
  /\ exists ca cb, code a = VStr ca /\ code b = VStr cb
                   /\ String.length ca = String.length cb + 2.

Lemma is_within_truthy (a b : GICS) (H : heap) :
  exists v, is_within a b H = Ok v /\ (truthy H v = true <-> within a b H).
Proof.
  unfold is_within, within.
  destruct (truthy H (is_valid a H)) eqn:Ea; cbn [negb];
    [|eexists; split; [done|]; rewrite Ea; split; [done|by intros [? _]]].
  destruct (truthy H (is_valid b H)) eqn:Eb; cbn [negb];
    [|eexists; split; [done|]; rewrite Eb; split; [done|by intros (_ & ? & _)]].
  apply is_valid_truthy in Ea as (ca & Hca & _).
  apply is_valid_truthy in Eb as (cb & Hcb & _).
  unfold code. rewrite Hca, Hcb, py_eq_str.
  destruct (String.eqb_spec ca cb) as [->|Hne].
  - eexists. split; [done|]. cbn. split; [done|]. by intros (_ & _ & ? & _).
  - eexists. split; [done|]. cbn [truthy]. rewrite prefix_app. split.
    + intros (rest & ->). do 2 (split; [done|]). split; [congruence|].
      by exists (cb +:+ rest), cb, rest.
    + intros (_ & _ & _ & ca' & cb' & rest & [= <-] & [= <-] & ->). by exists rest.
Qed.

(** A true result of [is_within] is the boolean [True]. *)
Lemma is_within_bool (a b : GICS) (H : heap) v :
  is_within a b H = Ok v -> truthy H v = true -> v = VBool true.
Proof.
  unfold is_within.
  destruct (truthy H (is_valid a H)) eqn:Ea; cbn [negb];
    [|intros [= <-] ?; congruence].
  destruct (truthy H (is_valid b H)) eqn:Eb; cbn [negb];
    [|intros [= <-] ?; congruence].
  destruct (py_eq _ _ _ _) as [[]|]; [by intros [= <-]| |done].
  destruct (_code a), (code b); try done. intros [= <-]. cbn. by intros ->.
Qed.

Lemma is_immediate_within_truthy (a b : GICS) (H : heap) :
  exists v, is_immediate_within a b H = Ok v
            /\ (truthy H v = true <-> immediate_within a b H).
Proof.
  unfold is_immediate_within, immediate_within.
  destruct (is_within_truthy a b H) as (v & Hrun & Hv). rewrite Hrun.
  destruct (truthy H v) eqn:E.
  - rewrite (is_within_bool a b H v Hrun E).
    pose proof (proj1 Hv eq_refl) as (_ & _ & _ & ca & cb & rest & Hca & Hcb & _).
    unfold code in *. rewrite Hca, Hcb. eexists. split; [done|].
    cbn [truthy]. rewrite Nat.eqb_eq. split.
    + intros Hl. split; [by apply Hv|]. by exists ca, cb.
    + by intros (_ & ca' & cb' & [= <-] & [= <-] & Hl).
  - exists v. split.
    + destruct v as [|[]| | |]; try done.
    + rewrite E. split; [done|]. intros [Hw _]. apply Hv in Hw. congruence.
Qed.

Definition known_versions : list string :=
  ["20140228"; "20160901"; "20180929"; "20230318"].

(** ** Observations in an extended store *)

(** No reference dangles: every reference held by a dictionary of the
    store, and by a resolver, is to an object of the store. *)
Definition value_closed (n : nat) (v : value) : bool :=
  match v with VRef l => l <? n | _ => true end.

Definition heap_closed (h : heap) : bool :=
  forallb (fun d => forallb (fun kv => value_closed (length h) kv.2) d) h.

Definition resolver_closed (h : heap) (r : GICS) : bool :=
  (_definition r <? length h) && value_closed (length h) (_code r).

(** What a caller sees of [children]: the records, or the exception. *)
Definition children_view (r : GICS) (H : heap)
  : result (list (list (string * value))) :=
  match children r H with
  | (Ok vs, H2) => Ok (contents H2 vs)
  | (Raise e, _) => Raise e
  end.

Lemma child_body_frame table k (H : heap) :
  exists ext, snd (child_body table k H) = H ++ ext.
Proof.
  unfold child_body, getitem, getattr, bind, deref, gets, alloc, ret, raise.
  destruct (dict_get (H !!! table) k) as [[| | | |e]|] eqn:E; cbn;
    rewrite ?E; cbn; try (exists []; by rewrite app_nil_r).
  by eexists.
Qed.

Lemma map_each_frame table ks :
  forall H : heap, exists ext, snd (map_each ks (child_body table) H) = H ++ ext.
Proof.
  induction ks as [|k ks IH]; intros H.
  - exists []. cbn. by rewrite app_nil_r.
  - cbn [map_each]. unfold bind at 1.
    destruct (child_body_frame table k H) as (ext1 & H1).
    destruct (child_body table k H) as [[v|e] H'']; cbn in H1; subst H'';
      [|by eexists].
    unfold bind. destruct (IH (H ++ ext1)) as (ext2 & H2).
    destruct (map_each ks (child_body table) (H ++ ext1)) as [[vs|e] H''];
      cbn in H2; subst H''; cbn; rewrite <- app_assoc; by eexists.
Qed.

(** [children] allocates and assigns nothing. *)
Lemma children_frame (r : GICS) (H : heap) :
  exists rows, snd (children r H) = H ++ rows.
Proof.
  unfold children. unfold bind at 1. unfold gets at 1.
  unfold bind at 1. unfold deref at 1, gets at 1. unfold bind at 1.
  destruct (truthy H (is_valid r H)).
  - destruct (_code r); try (exists []; cbn; by rewrite app_nil_r).
    cbn [ret]. apply (map_each_frame (_definition r)).
  - cbn [ret]. apply (map_each_frame (_definition r)).
Qed.

Section Extension.

Variables (h ext : heap).
Hypothesis Hclosed : heap_closed h = true.

Lemma heap_closed_get l k v :
  dict_get (h !!! l) k = Some v -> value_closed (length h) v = true.
Proof.
  intros Hg. apply dict_get_elem_of in Hg.
  destruct (h !! l) as [d|] eqn:E.
  - rewrite (list_lookup_total_correct _ _ _ E) in Hg.
    unfold heap_closed in Hclosed. rewrite forallb_forall in Hclosed.
    assert (Hd : In d h) by (apply list_elem_of_In, list_elem_of_lookup; eauto).
    apply Hclosed in Hd. rewrite forallb_forall in Hd.
    by apply list_elem_of_In, Hd in Hg.
  - rewrite list_lookup_total_alt, E in Hg. by apply elem_of_nil in Hg.
Qed.

Lemma truthy_ext v :
  value_closed (length h) v = true -> truthy (h ++ ext) v = truthy h v.
Proof.
  destruct v as [| | | |l]; try done. cbn. intros Hl%Nat.ltb_lt.
  by rewrite lookup_total_app_l.
Qed.

Lemma is_valid_ext (r : GICS) :
  resolver_closed h r = true -> is_valid r (h ++ ext) = is_valid r h.
Proof.
  unfold resolver_closed. intros [Hd%Nat.ltb_lt Hc]%andb_true_iff.
  unfold is_valid, py_and, code. rewrite (truthy_ext _ Hc).
  rewrite lookup_total_app_l by done. done.
Qed.

Lemma is_valid_closed (r : GICS) :
  resolver_closed h r = true -> value_closed (length h) (is_valid r h) = true.
Proof.
  unfold resolver_closed. intros [Hd Hc]%andb_true_iff.
  unfold is_valid, py_and, code.
  destruct (truthy h (_code r)); [|done].
  destruct (_code r) as [| | |c|]; try done.
  cbn [truthy].
  destruct (2 <=? String.length c); [|done].
  destruct (String.length c <=? 8); [|done].
  destruct (String.length c mod 2 =? 0); [|done].
  unfold dict_get_default.
  destruct (dict_get (h !!! _definition r) c) eqn:E; [|done].
  by eapply heap_closed_get.
Qed.

Lemma level_ext (r : GICS) (n : value) :
  resolver_closed h r = true -> value_closed (length h) n = true ->
  level r n (h ++ ext) = level r n h.
Proof.
  intros Hr Hn. unfold level.
  by rewrite (is_valid_ext r Hr), (truthy_ext _ (is_valid_closed r Hr)),
    (truthy_ext _ Hn).
Qed.

Lemma dict_items_eq_ext depth (db items : list (string * value))
  (IH : forall a b, value_closed (length h) a = true ->
                    value_closed (length h) b = true ->
                    py_eq depth (h ++ ext) a b = py_eq depth h a b) :
  Forall (fun kv => value_closed (length h) kv.2 = true) items ->
  Forall (fun kv => value_closed (length h) kv.2 = true) db ->
  dict_items_eq (py_eq depth (h ++ ext)) db items
  = dict_items_eq (py_eq depth h) db items.
Proof.
  intros Hitems Hdb. induction Hitems as [|[k v] items Hv Hitems IHitems];
    [done|].
  cbn [dict_items_eq]. destruct (dict_get db k) as [v'|] eqn:E; [|done].
  rewrite IH; [by rewrite IHitems|done|].
  apply dict_get_elem_of in E. rewrite Forall_forall in Hdb.
  by apply Hdb in E.
Qed.

Lemma heap_closed_dict l :
  Forall (fun kv => value_closed (length h) kv.2 = true) (h !!! l).
Proof.
  destruct (h !! l) as [d|] eqn:E.
  - rewrite (list_lookup_total_correct _ _ _ E).
    unfold heap_closed in Hclosed. rewrite forallb_forall in Hclosed.
    assert (Hd : In d h) by (apply list_elem_of_In, list_elem_of_lookup; eauto).
    apply Hclosed in Hd. rewrite forallb_forall in Hd.
    apply Forall_forall. intros kv Hin. by apply Hd, list_elem_of_In.
  - rewrite list_lookup_total_alt, E. constructor.
Qed.

Lemma py_eq_ext depth a b :
  value_closed (length h) a = true -> value_closed (length h) b = true ->
  py_eq depth (h ++ ext) a b = py_eq depth h a b.
Proof.
  revert a b. induction depth as [|depth IH]; intros a b Ha Hb.
  - by destruct a, b.
  - destruct a as [| | | |l], b as [| | | |m]; try done.
    cbn in Ha, Hb. apply Nat.ltb_lt in Ha, Hb. cbn [py_eq].
    rewrite !lookup_total_app_l by done.
    destruct (l =? m); [done|].
    destruct (negb (length (h !!! l) =? length (h !!! m))); [done|].
    apply dict_items_eq_ext; [done|apply heap_closed_dict..].
Qed.

Lemma is_same_ext (a b : GICS) :
  resolver_closed h a = true -> resolver_closed h b = true ->
  is_same a b (h ++ ext) = is_same a b h.
Proof.
  intros Ha Hb. unfold is_same, code.
  rewrite !is_valid_ext by done.
  rewrite !py_eq_ext; [done|..].
  - by apply andb_true_iff in Ha as [_ ?].
  - by apply andb_true_iff in Hb as [_ ?].
  - by apply is_valid_closed.
  - by apply is_valid_closed.
Qed.

Lemma is_within_ext (a b : GICS) :
  resolver_closed h a = true -> resolver_closed h b = true ->
  is_within a b (h ++ ext) = is_within a b h.
Proof.
  intros Ha Hb. unfold is_within, code.
  rewrite !is_valid_ext by done.
  rewrite !(truthy_ext _ (is_valid_closed _ Ha)).
  rewrite !(truthy_ext _ (is_valid_closed _ Hb)).
  rewrite py_eq_ext; [done|..].
  - by apply andb_true_iff in Ha as [_ ?].
  - by apply andb_true_iff in Hb as [_ ?].
Qed.

Lemma is_immediate_within_ext (a b : GICS) :
  resolver_closed h a = true -> resolver_closed h b = true ->
  is_immediate_within a b (h ++ ext) = is_immediate_within a b h.
Proof.
  intros Ha Hb. unfold is_immediate_within. by rewrite is_within_ext.
Qed.

Lemma table_closed_of (r : GICS) :
  resolver_closed h r = true -> table_closed h (_definition r).
Proof.
  intros [Hd%Nat.ltb_lt _]%andb_true_iff. split; [done|].
  intros k e Hg. apply heap_closed_get in Hg. by apply Nat.ltb_lt in Hg.
Qed.

Lemma table_closed_ext (r : GICS) :
  resolver_closed h r = true -> table_closed (h ++ ext) (_definition r).
Proof.
  intros Hr. destruct (table_closed_of r Hr) as [Hd Hrefs].
  split; [rewrite length_app; lia|]. intros k e.
  rewrite lookup_total_app_l by done. intros Hg%Hrefs.
  rewrite length_app. lia.
Qed.

Lemma child_rows_ext table ks :
  (forall k e, dict_get table k = Some (VRef e) -> e < length h) ->
  child_rows (h ++ ext) table ks = child_rows h table ks.
Proof.
  intros Hrefs. induction ks as [|k ks IH]; [done|].
  cbn [child_rows]. rewrite IH. unfold child_row.
  destruct (dict_get table k) as [[| | | |e]|] eqn:E; try done.
  by rewrite lookup_total_app_l by (by eapply Hrefs).
Qed.

Lemma children_view_run (r : GICS) (H : heap) :
  table_closed H (_definition r) ->
  children_view r H
  = match child_keys r H with
    | Ok ks => child_rows H (H !!! _definition r) ks
    | Raise e => Raise e
    end.
Proof.
  intros Hcl. unfold children_view.
  pose proof (children_run r H Hcl) as Hrun.
  destruct (children r H) as [[vs|e] H2].
  - destruct Hrun as (ks & rows & -> & Hr & -> & ->).
    rewrite Hr, <- (child_rows_length _ _ _ _ Hr). by rewrite contents_new.
  - destruct Hrun as ([->|(ks & -> & ->)] & _); done.
Qed.

Lemma children_view_ext (r : GICS) :
  resolver_closed h r = true ->
  children_view r (h ++ ext) = children_view r h.
Proof.
  intros Hr.
  rewrite (children_view_run r (h ++ ext) (table_closed_ext r Hr)).
  rewrite (children_view_run r h (table_closed_of r Hr)).
  destruct (table_closed_of r Hr) as [Hd Hrefs].
  unfold child_keys.
  rewrite (is_valid_ext r Hr), (truthy_ext _ (is_valid_closed r Hr)).
  rewrite lookup_total_app_l by done.
  destruct (truthy h (is_valid r h)).
  - destruct (_code r); try done. by apply child_rows_ext.
  - by apply child_rows_ext.
Qed.

End Extension.

Section Claims.

Variables d_20140228 d_20160901 d_20180929 d_20230318 : loc.

Local Abbreviation DEFS :=
  (DEFINITIONS d_20140228 d_20160901 d_20180929 d_20230318).
Local Abbreviation init :=
  (GICS_init d_20140228 d_20160901 d_20180929 d_20230318).

(** C1.  For every constructed resolver, [is_valid] is true if and only if
    the supplied code is a non-empty string of even length between 2 and 8
    and the full code is a key of the table of the bound version. *)
Theorem is_valid_iff (h : heap) (t : loc) (version : string) (c : value)
  (r : GICS) (h' : heap) :
  dict_get DEFS version = Some (VRef t) ->
  table_ok h t = true ->
  init c version h = (Ok r, h') ->
  truthy h' (is_valid r h') = true <-> valid_code (dict_keys (h !!! t)) c.
Proof.
  intros Hv Hok Hinit.
  destruct (valid_code_dec (dict_keys (h !!! t)) c) as [Hvalid|Hinvalid].
  - split; [done|intros _].
    pose proof Hvalid as (s & -> & Hs & Hk)%valid_code_shape.
    pose proof (init_valid _ _ _ _ h t version Hv Hok s Hs Hk) as Hrun.
    rewrite Hinit in Hrun. destruct Hrun as (es & l1 & l2 & l3 & l4 & -> & -> & Hinv & _).
    apply (resolver_is_valid h t Hok es version (VStr s) _ Hinv). by exists s.
  - split; [|done]. intros Htrue. exfalso.
    rewrite valid_code_shape in Hinvalid.
    rewrite (init_invalid _ _ _ _ h t version Hv Hok c Hinvalid) in Hinit.
    injection Hinit as <- <-.
    rewrite is_valid_None in Htrue; done.
Qed.

(** C3.  A code that is absent, empty, not a string, of odd length, too
    short, too long or missing from the table is not an error: construction
    with a known version returns a resolver whose [is_valid] is false
    (it is [None] in every store), whose stored code is [None] and all of
    whose levels are absent. *)
Theorem invalid_code_constructs (h : heap) (t : loc) (version : string)
  (c : value) :
  dict_get DEFS version = Some (VRef t) ->
  table_ok h t = true ->
  invalid_code (dict_keys (h !!! t)) c ->
  exists r h',
    init c version h = (Ok r, h')
    /\ truthy h' (is_valid r h') = false
    /\ (forall H, is_valid r H = VNone)
    /\ code r = VNone
    /\ sector r h' = Ok VNone /\ industry_group r h' = Ok VNone
    /\ industry r h' = Ok VNone /\ sub_industry r h' = Ok VNone
    /\ (forall n H, level r n H = Ok VNone).
Proof.
  intros Hv Hok Hc%invalid_code_not_valid. rewrite valid_code_shape in Hc.
  eexists _, _. split; [by apply init_invalid|].
  assert (Hnone : forall H, is_valid (mkGICS version (length h) VNone None) H = VNone)
    by (intros H; by apply is_valid_None).
  assert (Hlevel : forall n H,
             level (mkGICS version (length h) VNone None) n H = Ok VNone)
    by (intros n H; apply level_invalid; by rewrite Hnone).
  split; [by rewrite Hnone|]. split; [done|]. split; [done|].
  unfold sector, industry_group, industry, sub_industry. by rewrite !Hlevel.
Qed.

(** C4.  [level n] is absent when [n] is not an integer between 1 and 4,
    when the resolver is invalid, and when the code does not reach level
    [n]; for a valid code of length [L], level [k] is present exactly when
    [2 * k <= L], and its [code] is the first [2 * k] characters of the
    code.  With a table closed under prefixes a valid code always
    constructs. *)
Theorem level_spec (h : heap) (t : loc) (version : string) :
  dict_get DEFS version = Some (VRef t) ->
  table_ok h t = true ->
  (forall r H n,
      (forall z, as_int n = Some z -> (z < 1 \/ 4 < z)%Z) -> level r n H = Ok VNone)
  /\ (forall r H n, truthy H (is_valid r H) = false -> level r n H = Ok VNone)
  /\ (forall s r h',
        valid_code (dict_keys (h !!! t)) (VStr s) ->
        init (VStr s) version h = (Ok r, h') ->
        forall k, 1 <= k <= 4 ->
          (2 * k <= String.length s ->
           exists e, level r (VInt (Z.of_nat k)) h' = Ok (VRef e)
                     /\ dict_get (h' !!! e) "code"
                        = Some (VStr (substring 0 (2 * k) s)))
          /\ (String.length s < 2 * k ->
              level r (VInt (Z.of_nat k)) h' = Ok VNone))
  /\ (prefix_closed (dict_keys (h !!! t)) = true ->
      forall s, valid_code (dict_keys (h !!! t)) (VStr s) ->
                exists r h', init (VStr s) version h = (Ok r, h')).
Proof.
  intros Hv Hok.
  split; [intros r H n; apply level_not_int|].
  split; [intros r H n; apply level_invalid|].
  split.
  - intros s r h' (s' & [= <-] & Hs & Hk)%valid_code_shape Hinit k Hrange.
    pose proof (init_valid _ _ _ _ h t version Hv Hok s Hs Hk) as Hrun.
    rewrite Hinit in Hrun.
    destruct Hrun as (es & l1 & l2 & l3 & l4 & -> & -> & Hinv & L1 & L2 & L3 & L4).
    rewrite (level_run h t Hok es version s _ k Hinv Hs Hk Hrange).
    assert (k = 1 \/ k = 2 \/ k = 3 \/ k = 4) as [-> | [-> | [-> | ->]]] by lia;
      cbn [lookup list_lookup Nat.sub Nat.mul Nat.add].
    + split; [intros _|apply code_shape_spec in Hs; lia].
      destruct (level_ok_code _ _ _ _ _ L1) as (e & -> & He). by exists e.
    + split; intros Hlen.
      * apply Nat.leb_le in Hlen. rewrite Hlen in L2.
        destruct (level_ok_code _ _ _ _ _ L2) as (e & -> & He). by exists e.
      * assert (E : (4 <=? String.length s) = false) by (apply Nat.leb_gt; lia).
        rewrite E in L2. by rewrite L2.
    + split; intros Hlen.
      * apply Nat.leb_le in Hlen. rewrite Hlen in L3.
        destruct (level_ok_code _ _ _ _ _ L3) as (e & -> & He). by exists e.
      * assert (E : (6 <=? String.length s) = false) by (apply Nat.leb_gt; lia).
        rewrite E in L3. by rewrite L3.
    + split; intros Hlen.
      * apply Nat.leb_le in Hlen. rewrite Hlen in L4.
        destruct (level_ok_code _ _ _ _ _ L4) as (e & -> & He). by exists e.
      * assert (E : (8 <=? String.length s) = false) by (apply Nat.leb_gt; lia).
        rewrite E in L4. by rewrite L4.
  - intros Hpc s (s' & [= <-] & Hs & Hk)%valid_code_shape.
    pose proof (init_valid _ _ _ _ h t version Hv Hok s Hs Hk) as Hrun.
    destruct (init (VStr s) version h) as [[r|e] h'] eqn:E; [by exists r, h'|].
    destruct Hrun as (j & Hj & Hlt & Hn & _). exfalso. apply Hn.
    by apply prefix_closed_elem.
Qed.

(** C10.  For an invalid code the list of levels is never assigned, and
    yet [level] fails for no argument and in no store: the validity guard
    answers before the list is read.  Without the guard the read would
    fail: it raises [AttributeError] for a valid resolver without the
    list. *)
Theorem level_total_without_levels (h : heap) (t : loc) (version : string)
  (c : value) :
  dict_get DEFS version = Some (VRef t) ->
  table_ok h t = true ->
  ~ valid_code (dict_keys (h !!! t)) c ->
  (exists r h',
      init c version h = (Ok r, h')
      /\ _levels r = None
      /\ forall n H, level r n H = Ok VNone)
  /\ (forall r H,
        _levels r = None -> truthy H (is_valid r H) = true ->
        level r (VInt 1) H = Raise (AttributeError "_levels")).
Proof.
  intros Hv Hok Hc. rewrite valid_code_shape in Hc. split.
  - eexists _, _. split; [by apply init_invalid|]. split; [done|].
    intros n H. apply level_invalid. by rewrite is_valid_None.
  - intros r H Hl Ht. unfold level. by rewrite Ht, Hl.
Qed.

(** C2.  A version outside the known set raises the error that carries the
    requested version and lists the known ones, for every code and before
    anything is allocated: the store is left as it was.  A version of the
    known set, whose table is not empty, never raises it. *)
Theorem unsupported_version_raises (c : value) (version : string) (h : heap) :
  (version ∉ known_versions ->
   init c version h
   = (Raise (ValueError
        ("Unsupported GICS version: " +:+ version +:+
         ". Available versions are ['20140228', '20160901', '20180929', '20230318']")),
      h))
  /\ (version ∈ known_versions ->
      (forall t, dict_get DEFS version = Some (VRef t) -> h !!! t <> []) ->
      forall msg h', init c version h <> (Raise (ValueError msg), h')).
Proof.
  split.
  - intros Hn. change known_versions with (dict_keys DEFS) in Hn.
    apply dict_get_None in Hn. unfold GICS_init, dict_get_default.
    by rewrite Hn.
  - intros Hk Hne msg h' Hinit.
    pose proof (init_frame d_20140228 d_20160901 d_20180929 d_20230318
                  c version h) as Hf.
    rewrite Hinit in Hf. destruct Hf as [_ Hf]. specialize (Hf msg eq_refl).
    assert (exists t, dict_get DEFS version = Some (VRef t)) as (t & Ht).
    { unfold known_versions in Hk.
      repeat (apply elem_of_cons in Hk as [->|Hk]; [by eexists|]).
      by apply elem_of_nil in Hk. }
    unfold dict_get_default in Hf. rewrite Ht in Hf. cbn [truthy] in Hf.
    apply negb_false_iff, Nat.eqb_eq in Hf.
    apply (Hne t Ht). by apply length_zero_iff_nil.
Qed.

(** C5.  [children] of a constructed resolver returns, in the order of
    the table, one record per selected key, carrying the key and the name
    and description of its table entry: the keys of length 2 for an
    invalid resolver; for a valid one the keys that start with its code
    and are two characters longer.  No key is reported twice, and a valid
    code of length 8 has no children in a table whose keys have at most 8
    characters. *)
Theorem children_spec (h : heap) (t : loc) (version : string) (c : value)
  (r : GICS) (h' : heap) :
  dict_get DEFS version = Some (VRef t) ->
  table_ok h t = true ->
  init c version h = (Ok r, h') ->
  exists vs h'',
    children r h' = (Ok vs, h'')
    /\ (~ valid_code (dict_keys (h !!! t)) c ->
        contents h'' vs
        = map (child_record h t)
            (filter (fun k => String.length k = 2) (dict_keys (h !!! t))))
    /\ (forall s,
          valid_code (dict_keys (h !!! t)) c -> code r = VStr s ->
          contents h'' vs
          = map (child_record h t)
              (filter (fun k => String.prefix s k = true
                                /\ String.length k = String.length s + 2)
                      (dict_keys (h !!! t))))
    /\ NoDup (map (fun d => dict_get_default d "code") (contents h'' vs))
    /\ (forall s,
          valid_code (dict_keys (h !!! t)) c -> code r = VStr s ->
          String.length s = 8 ->
          (forall k, k ∈ dict_keys (h !!! t) -> String.length k <= 8) ->
          vs = []).
Proof.
  intros Hv Hok Hinit.
  assert (Hsel2 : selected VNone (dict_keys (h !!! t))
                  = filter (fun k => String.length k = 2) (dict_keys (h !!! t))).
  { apply list_filter_iff. intros k. by rewrite Is_true_true, Nat.eqb_eq. }
  assert (Hsel : forall s, selected (VStr s) (dict_keys (h !!! t))
                  = filter (fun k => String.prefix s k = true
                                /\ String.length k = String.length s + 2)
                      (dict_keys (h !!! t))).
  { intros s. apply list_filter_iff. intros k.
    by rewrite andb_True, !Is_true_true, Nat.eqb_eq. }
  assert (Hnd : forall c0, NoDup (selected c0 (dict_keys (h !!! t)))).
  { pose proof (table_ok_inv _ _ Hok) as (_ & _ & Hnd & _).
    intros c0. unfold selected. destruct c0; by apply NoDup_filter. }
  assert (HinjS : Inj eq eq VStr) by (intros ? ? [= ?]; done).
  assert (Hcodes : forall ks,
             map (fun d => dict_get_default d "code") (map (child_record h t) ks)
             = map VStr ks).
  { intros ks. rewrite map_map. by apply map_ext. }
  destruct (valid_code_dec (dict_keys (h !!! t)) c) as [Hvalid|Hinvalid].
  - pose proof Hvalid as (s & -> & Hs & Hk)%valid_code_shape.
    pose proof (init_valid _ _ _ _ h t version Hv Hok s Hs Hk) as Hrun.
    rewrite Hinit in Hrun.
    destruct Hrun as (es & l1 & l2 & l3 & l4 & -> & -> & Hinv & _).
    destruct (resolver_children h t Hok es version (VStr s)
                (Some [l1; l2; l3; l4]) Hinv) as (vs & H2 & Hrun & Hcont & _).
    { right. by exists s. }
    exists vs, H2. split; [done|]. split; [done|].
    split; [intros s' _ [= <-]; by rewrite Hcont, Hsel|].
    split.
    + rewrite Hcont, Hcodes. apply (NoDup_fmap_2 VStr), Hnd.
    + intros s' _ [= <-] Hlen Hle.
      assert (Hnil : selected (VStr s) (dict_keys (h !!! t)) = []).
      { rewrite Hsel. apply elem_of_nil_inv. intros k.
        rewrite list_elem_of_filter. intros [[_ Hlk] Hin].
        specialize (Hle k Hin). lia. }
      rewrite Hnil in Hcont. by destruct vs.
  - pose proof Hinvalid as Hn. rewrite valid_code_shape in Hn.
    rewrite (init_invalid _ _ _ _ h t version Hv Hok c Hn) in Hinit.
    injection Hinit as <- <-.
    destruct (resolver_children h t Hok _ version VNone None
                (entries_inv_init h t)) as (vs & H2 & Hrun & Hcont & _).
    { by left. }
    exists vs, H2. split; [done|].
    split; [intros _; by rewrite Hcont, Hsel2|].
    split; [done|].
    split; [|done].
    rewrite Hcont, Hcodes. apply (NoDup_fmap_2 VStr), Hnd.
Qed.

(** C7.  [is_within] never fails and is true exactly when both resolvers
    are valid, their codes differ and the code of the other is a prefix of
    the code of this one; [is_immediate_within] adds that this code is
    two characters longer.  Hence no resolver is within itself, and both
    are false as soon as one resolver is invalid. *)
Theorem within_spec (a b : GICS) (H : heap) :
  (exists v, is_within a b H = Ok v
             /\ (truthy H v = true <->
                 truthy H (is_valid a H) = true /\ truthy H (is_valid b H) = true
                 /\ code a <> code b
                 /\ exists ca cb rest,
                     code a = VStr ca /\ code b = VStr cb /\ ca = cb +:+ rest))
  /\ (exists v, is_immediate_within a b H = Ok v
                /\ (truthy H v = true <->
                    (truthy H (is_valid a H) = true
                     /\ truthy H (is_valid b H) = true
                     /\ code a <> code b
                     /\ exists ca cb rest,
                         code a = VStr ca /\ code b = VStr cb
                         /\ ca = cb +:+ rest)
                    /\ exists ca cb,
                        code a = VStr ca /\ code b = VStr cb
                        /\ String.length ca = String.length cb + 2))
  /\ (exists v, is_within a a H = Ok v /\ truthy H v = false)
  /\ (truthy H (is_valid a H) = false \/ truthy H (is_valid b H) = false ->
      exists v w, is_within a b H = Ok v /\ truthy H v = false
                  /\ is_immediate_within a b H = Ok w /\ truthy H w = false).
Proof.
  split; [apply is_within_truthy|].
  split; [apply is_immediate_within_truthy|].
  split.
  - destruct (is_within_truthy a a H) as (v & Hrun & Hv). exists v.
    split; [done|]. destruct (truthy H v); [|done].
    by destruct (proj1 Hv eq_refl) as (_ & _ & ? & _).
  - intros Hinv.
    destruct (is_within_truthy a b H) as (v & Hrun & Hv).
    destruct (is_immediate_within_truthy a b H) as (w & Hrunw & Hw).
    exists v, w. split; [done|]. split; [|split; [done|]].
    + destruct (truthy H v); [|done].
      destruct (proj1 Hv eq_refl) as (? & ? & _). destruct Hinv; congruence.
    + destruct (truthy H w); [|done].
      destruct (proj1 Hw eq_refl) as ((? & ? & _) & _). destruct Hinv; congruence.
Qed.

(** C8.  [contains] is [is_within] with the resolvers exchanged, and
    [contains_immediate] is [is_immediate_within] with the resolvers
    exchanged. *)
Theorem contains_dual (a b : GICS) (H : heap) :
  contains a b H = is_within b a H
  /\ contains_immediate a b H = is_immediate_within b a H.
Proof. split; reflexivity. Qed.

(** The entry of the full code of a valid resolver is a new object that
    carries the code. *)
Lemma init_valid_entry (h : heap) (t : loc) (version : string) (s : string)
  (r : GICS) (h' : heap) :
  dict_get DEFS version = Some (VRef t) ->
  table_ok h t = true ->
  valid_code (dict_keys (h !!! t)) (VStr s) ->
  init (VStr s) version h = (Ok r, h') ->
  exists e, is_valid r h' = VRef e /\ length h <= e
            /\ dict_get (h' !!! e) "code" = Some (VStr s).
Proof.
  intros Hv Hok (s' & [= <-] & Hs & Hk)%valid_code_shape Hinit.
  pose proof (init_valid _ _ _ _ h t version Hv Hok s Hs Hk) as Hrun.
  rewrite Hinit in Hrun.
  destruct Hrun as (es & l1 & l2 & l3 & l4 & -> & -> & Hinv & L1 & L2 & L3 & L4).
  assert (Hm : is_marked h t es s).
  { pose proof Hs as (_ & [m Hm] & Hlen)%code_shape_spec.
    assert (m = 1 \/ m = 2 \/ m = 3 \/ m = 4) as [-> | [-> | [-> | ->]]] by lia;
      cbn in Hm; rewrite <- (substring_full s), Hm.
    - by destruct L1.
    - rewrite Hm in L2. by destruct L2.
    - rewrite Hm in L3. by destruct L3.
    - rewrite Hm in L4. by destruct L4. }
  destruct Hm as (i & kv & Hi & _ & Hes).
  exists (S (length h) + i).
  rewrite (is_valid_entry _ _ s) by done. cbn [_definition].
  rewrite resolver_heap_get, Hi. split; [done|]. split; [lia|].
  rewrite resolver_heap_entry, (list_lookup_total_correct _ _ _ Hes).
  apply dict_get_set_eq.
Qed.

(** C9.  A construction only appends to the store: every object that was
    there, the tables of [gics.definitions] and the tables of the other
    resolvers among them, is what it was.  [children] only appends too,
    and the other queries return no store at all.  So whatever any other
    resolver answered before, it answers after.  The writes of [__init__]
    land in the new objects: the table of the resolver is a new object
    with the keys of the table of its version, and the entry that carries
    the code of a valid resolver did not exist before. *)
Theorem definitions_not_mutated (c : value) (version : string) (h : heap) :
  (exists ext, snd (init c version h) = h ++ ext)
  /\ (forall l, l < length h -> snd (init c version h) !!! l = h !!! l)
  /\ (forall r H, exists rows, snd (children r H) = H ++ rows)
  /\ (heap_closed h = true ->
      forall r0 r1,
        resolver_closed h r0 = true -> resolver_closed h r1 = true ->
        let h' := snd (init c version h) in
        is_valid r0 h' = is_valid r0 h
        /\ (forall n, value_closed (length h) n = true ->
                      level r0 n h' = level r0 n h)
        /\ children_view r0 h' = children_view r0 h
        /\ is_same r0 r1 h' = is_same r0 r1 h
        /\ is_within r0 r1 h' = is_within r0 r1 h
        /\ is_immediate_within r0 r1 h' = is_immediate_within r0 r1 h)
  /\ (forall t r h',
        dict_get DEFS version = Some (VRef t) ->
        table_ok h t = true ->
        init c version h = (Ok r, h') ->
        _definition r = length h
        /\ dict_keys (h' !!! _definition r) = dict_keys (h !!! t)
        /\ forall s,
            c = VStr s -> valid_code (dict_keys (h !!! t)) c ->
            exists e, is_valid r h' = VRef e /\ length h <= e
                      /\ dict_get (h' !!! e) "code" = Some (VStr s)).
Proof.
  pose proof (init_frame d_20140228 d_20160901 d_20180929 d_20230318
                c version h) as Hf.
  destruct (init c version h) as [res h'] eqn:Hinit.
  destruct Hf as [(ext & ->) _]. cbn [snd].
  split; [by exists ext|].
  split; [intros l Hl; by rewrite lookup_total_app_l|].
  split; [apply children_frame|].
  split.
  - intros Hcl r0 r1 Hr0 Hr1. cbv zeta.
    split; [by apply is_valid_ext|].
    split; [intros n Hn; by apply level_ext|].
    split; [by apply children_view_ext|].
    split; [by apply is_same_ext|].
    split; [by apply is_within_ext|by apply is_immediate_within_ext].
  - intros t r h'' Hv Hok [= -> <-].
    assert (Hcopy : _definition r = length h
                    /\ dict_keys ((h ++ ext) !!! _definition r)
                       = dict_keys (h !!! t)).
    { destruct (valid_code_dec (dict_keys (h !!! t)) c) as [Hvalid|Hinvalid].
      - pose proof Hvalid as (s & -> & Hs & Hk)%valid_code_shape.
        pose proof (init_valid _ _ _ _ h t version Hv Hok s Hs Hk) as Hrun.
        rewrite Hinit in Hrun.
        destruct Hrun as (es & l1 & l2 & l3 & l4 & -> & -> & _).
        split; [done|]. cbn [_definition].
        by rewrite resolver_heap_top, dict_keys_relocate.
      - rewrite valid_code_shape in Hinvalid.
        rewrite (init_invalid _ _ _ _ h t version Hv Hok c Hinvalid) in Hinit.
        injection Hinit as <- <-. split; [done|]. cbn [_definition].
        by rewrite resolver_heap_top, dict_keys_relocate. }
    destruct Hcopy as [Hdef Hkeys]. split; [done|]. split; [done|].
    intros s -> Hvalid.
    by apply (init_valid_entry h t version s r _ Hv Hok Hvalid).
Qed.

End Claims.

(** ** [is_same] *)

(** Two resolvers without a code are the same. *)
Lemma is_same_invalid (a b : GICS) (H : heap) :
  _code a = VNone -> _code b = VNone -> is_same a b H = Ok (VBool true).
Proof.
  intros Ha Hb. unfold is_same, code.
  by rewrite !is_valid_None, Ha, Hb, !py_eq_None.
Qed.

(** A valid resolver and one without a code are not the same. *)
Lemma is_same_valid_invalid (a b : GICS) (H : heap) :
  truthy H (is_valid a H) = true -> _code b = VNone ->
  is_same a b H = Ok (VBool false) /\ is_same b a H = Ok (VBool false).
Proof.
  intros Ha Hb. unfold is_same.
  rewrite (is_valid_None b H Hb).
  destruct (is_valid a H) as [| | | |e]; [done|..];
    by destruct recursion_limit.
Qed.

(** Plain values compare without recursion, and equal themselves. *)
Lemma py_eq_scalar_refl depth (H : heap) v :
  scalar v = true -> py_eq depth H v v = Ok true.
Proof.
  destruct depth, v as [|[]| | |]; try done; intros _; cbn.
  - by rewrite Z.eqb_refl.
  - by rewrite String.eqb_refl.
  - by rewrite Z.eqb_refl.
  - by rewrite String.eqb_refl.
Qed.

Lemma py_eq_scalar_total depth (H : heap) v v' :
  scalar v = true -> exists b, py_eq depth H v v' = Ok b.
Proof.
  intros Hv. destruct depth, v as [| | | |], v' as [| | | |];
    try done; cbn; by eexists.
Qed.

Lemma dict_get_NoDup d k v :
  NoDup (dict_keys d) -> (k, v) ∈ d -> dict_get d k = Some v.
Proof.
  induction d as [|[k' v'] d IH]; cbn; intros Hnd Hin.
  - by apply elem_of_nil in Hin.
  - apply NoDup_cons in Hnd as [Hk' Hnd].
    apply elem_of_cons in Hin as [[= -> ->]|Hin].
    + by rewrite String.eqb_refl.
    + destruct (String.eqb_spec k' k) as [->|_]; [|by apply IH].
      exfalso. apply Hk'. apply list_elem_of_fmap. by exists (k, v).
Qed.

Lemma dict_items_eq_refl eq (d items : list (string * value)) :
  NoDup (dict_keys d) ->
  (forall k v, (k, v) ∈ items -> (k, v) ∈ d /\ eq v v = Ok true) ->
  dict_items_eq eq d items = Ok true.
Proof.
  intros Hnd. induction items as [|[k v] items IH]; intros Hall; [done|].
  cbn [dict_items_eq].
  destruct (Hall k v (list_elem_of_here _ _)) as [Hin Heq].
  rewrite (dict_get_NoDup d k v Hnd Hin), Heq. apply IH.
  intros k' v' Hin'. apply Hall. by apply list_elem_of_further.
Qed.

Lemma dict_items_eq_false eq (db items : list (string * value)) k v v' :
  (forall k0 v0 w, (k0, v0) ∈ items -> exists b, eq v0 w = Ok b) ->
  (k, v) ∈ items -> dict_get db k = Some v' -> eq v v' = Ok false ->
  dict_items_eq eq db items = Ok false.
Proof.
  intros Htot Hin Hget Hneq.
  induction items as [|[k0 v0] items IH]; [by apply elem_of_nil in Hin|].
  cbn [dict_items_eq].
  destruct (dict_get db k0) as [w|] eqn:E0; [|done].
  destruct (Htot k0 v0 w (list_elem_of_here _ _)) as ([] & Heq0);
    rewrite Heq0; [|done].
  apply elem_of_cons in Hin as [[= <- <-]|Hin]; [congruence|].
  apply IH; [|done]. intros k1 v1 w1 Hin1. apply (Htot k1).
  by apply list_elem_of_further.
Qed.

Lemma dict_set_elem_of d k v : (k, v) ∈ dict_set d k v.
Proof. apply dict_get_elem_of, dict_get_set_eq. Qed.

Lemma dict_set_scalar d k v :
  forallb scalar (map snd d) = true -> scalar v = true ->
  forallb scalar (map snd (dict_set d k v)) = true.
Proof.
  intros Hd Hv. induction d as [|[k' v'] d IH]; cbn in *.
  - by rewrite Hv.
  - apply andb_true_iff in Hd as [Hv' Hd].
    destruct (String.eqb k' k); cbn; [by rewrite Hv, Hd|].
    by rewrite Hv', IH.
Qed.

Lemma dict_set_NoDup d k v :
  NoDup (dict_keys d) -> NoDup (dict_keys (dict_set d k v)).
Proof.
  intros Hnd. destruct (decide (k ∈ dict_keys d)) as [Hin|Hn].
  - by rewrite dict_keys_set.
  - assert (Hs : dict_set d k v = d ++ [(k, v)]).
    { clear Hnd. induction d as [|[k' v'] d IH]; cbn; [done|].
      apply not_elem_of_cons in Hn as [Hne Hn].
      destruct (String.eqb_spec k' k) as [->|_]; [done|]. by rewrite IH. }
    rewrite Hs. unfold dict_keys. rewrite map_app. cbn.
    apply NoDup_app. split; [done|]. split; [|apply NoDup_singleton].
    intros x Hx [= ->]%list_elem_of_singleton. done.
Qed.

Lemma py_eq_ref depth (H : heap) l m :
  py_eq (S depth) H (VRef l) (VRef m)
  = if l =? m then Ok true
    else if negb (length (H !!! l) =? length (H !!! m)) then Ok false
         else dict_items_eq (py_eq depth H) (H !!! m) (H !!! l).
Proof. reflexivity. Qed.

(** The heart of [is_same] for two valid resolvers: it compares their
    marked entries, which agree exactly when the codes are equal and the
    entries come from equal table entries. *)
Lemma py_eq_marked (H : heap) (ea eb : loc) (Ea Eb : list (string * value))
  (sa sb : string) :
  ea <> eb ->
  H !!! ea = marked Ea sa -> H !!! eb = marked Eb sb ->
  forallb scalar (map snd Ea) = true -> NoDup (dict_keys Eb) ->
  (sa = sb -> Ea = Eb) ->
  py_eq recursion_limit H (VRef ea) (VRef eb) = Ok (String.eqb sa sb).
Proof.
  intros Hne Ha Hb Hsc Hnd Hsame.
  change recursion_limit with (S 999). rewrite py_eq_ref.
  replace (ea =? eb) with false by (symmetry; by apply Nat.eqb_neq).
  rewrite Ha, Hb.
  assert (Hsca : forall k0 v0, (k0, v0) ∈ marked Ea sa -> scalar v0 = true).
  { intros k0 v0 Hin.
    pose proof (dict_set_scalar Ea "code" (VStr sa) Hsc eq_refl) as Hall.
    rewrite forallb_forall in Hall. apply Hall, in_map_iff.
    exists (k0, v0). split; [done|]. by apply list_elem_of_In. }
  destruct (String.eqb_spec sa sb) as [<-|Hdiff].
  - rewrite <- (Hsame eq_refl), Nat.eqb_refl. cbn [negb].
    apply dict_items_eq_refl.
    + apply dict_set_NoDup. by rewrite (Hsame eq_refl).
    + intros k v Hin. split; [done|]. apply py_eq_scalar_refl.
      by apply (Hsca k).
  - destruct (negb _); [done|].
    apply (dict_items_eq_false _ _ _ "code" (VStr sa) (VStr sb)).
    + intros k0 v0 w Hin. apply py_eq_scalar_total. by apply (Hsca k0).
    + apply dict_set_elem_of.
    + apply dict_get_set_eq.
    + cbn. f_equal. by apply String.eqb_neq.
Qed.

Lemma table_ok_ext (h ext : heap) t :
  table_ok h t = true -> table_ok (h ++ ext) t = true.
Proof.
  unfold table_ok.
  intros [[[H1 H2]%andb_true_iff H3]%andb_true_iff H4]%andb_true_iff.
  pose proof H1 as Hlt%Nat.ltb_lt.
  rewrite lookup_total_app_l by done. rewrite !andb_true_iff.
  split; [split; [split|]|]; try done.
  - apply Nat.ltb_lt. rewrite length_app. lia.
  - rewrite forallb_forall in H4. apply forallb_forall. intros v Hv.
    apply H4 in Hv. unfold entry_ok in *. destruct v as [| | | |e]; try done.
    apply andb_true_iff in Hv as [[[He Hn]%andb_true_iff Hs]%andb_true_iff Hd].
    pose proof He as He'%Nat.ltb_lt.
    rewrite lookup_total_app_l by done. rewrite !andb_true_iff.
    split; [split; [split|]|]; try done.
    apply Nat.ltb_lt. rewrite length_app. lia.
Qed.

Lemma table_entry_ok (h : heap) t s :
  table_ok h t = true -> s ∈ dict_keys (h !!! t) ->
  forallb scalar (map snd (table_entry h t s)) = true
  /\ NoDup (dict_keys (table_entry h t s))
  /\ exists e, dict_get (h !!! t) s = Some (VRef e) /\ e < length h.
Proof.
  intros Hok Hs. pose proof (table_ok_inv _ _ Hok) as (_ & _ & _ & Hall).
  destruct (dict_get (h !!! t) s) as [v|] eqn:E;
    [|by apply dict_get_None in E].
  rewrite Forall_forall in Hall.
  pose proof (Hall _ (dict_get_elem_of _ _ _ E)) as Hv. cbn in Hv.
  unfold table_entry. rewrite E. unfold entry_ok in Hv.
  destruct v as [| | | |e]; try done.
  apply andb_true_iff in Hv as [[[He _]%andb_true_iff Hsc]%andb_true_iff Hd].
  split; [done|]. split; [by apply nodupb_NoDup|].
  exists e. split; [done|]. by apply Nat.ltb_lt.
Qed.

Lemma table_entry_ext (h ext : heap) t s :
  table_ok h t = true -> s ∈ dict_keys (h !!! t) ->
  table_entry (h ++ ext) t s = table_entry h t s.
Proof.
  intros Hok Hs. destruct (table_entry_ok h t s Hok Hs) as (_ & _ & e & He & Hlt).
  pose proof (table_ok_inv _ _ Hok) as (Ht & _).
  unfold table_entry. rewrite lookup_total_app_l by done. rewrite He.
  by rewrite lookup_total_app_l.
Qed.

Section SameVersion.

Variables d_20140228 d_20160901 d_20180929 d_20230318 : loc.

Local Abbreviation DEFS :=
  (DEFINITIONS d_20140228 d_20160901 d_20180929 d_20230318).
Local Abbreviation init :=
  (GICS_init d_20140228 d_20160901 d_20180929 d_20230318).

Variables (h : heap) (t : loc) (version : string).
Hypothesis Hversion : dict_get DEFS version = Some (VRef t).
Hypothesis Hok : table_ok h t = true.

(** An invalid code leaves a resolver without code in an extended store. *)
Lemma init_invalid_view c (r : GICS) (h' : heap) :
  ~ valid_code (dict_keys (h !!! t)) c ->
  init c version h = (Ok r, h') ->
  _code r = VNone /\ exists ext, h' = h ++ ext.
Proof.
  intros Hn Hinit. rewrite valid_code_shape in Hn.
  rewrite (init_invalid _ _ _ _ h t version Hversion Hok c Hn) in Hinit.
  injection Hinit as <- <-. split; [done|]. by eexists.
Qed.

(** A valid code: in every extension of the store of its construction
    [is_valid] is the new entry of the code, the table entry marked with
    the code. *)
Lemma init_valid_view s (r : GICS) (h' : heap) :
  valid_code (dict_keys (h !!! t)) (VStr s) ->
  init (VStr s) version h = (Ok r, h') ->
  _code r = VStr s
  /\ (exists ext, h' = h ++ ext)
  /\ exists e, length h <= e < length h'
      /\ forall ext, is_valid r (h' ++ ext) = VRef e
                     /\ truthy (h' ++ ext) (is_valid r (h' ++ ext)) = true
                     /\ (h' ++ ext) !!! e = marked (table_entry h t s) s.
Proof.
  intros (s' & [= <-] & Hs & Hk)%valid_code_shape Hinit.
  pose proof (init_valid _ _ _ _ h t version Hversion Hok s Hs Hk) as Hrun.
  rewrite Hinit in Hrun.
  destruct Hrun as (es & l1 & l2 & l3 & l4 & -> & -> & Hinv & L1 & L2 & L3 & L4).
  split; [done|]. split; [by eexists|].
  assert (Hm : is_marked h t es s).
  { pose proof Hs as (_ & [m Hm] & Hlen)%code_shape_spec.
    assert (m = 1 \/ m = 2 \/ m = 3 \/ m = 4) as [-> | [-> | [-> | ->]]] by lia;
      cbn in Hm; rewrite <- (substring_full s), Hm.
    - by destruct L1.
    - rewrite Hm in L2. by destruct L2.
    - rewrite Hm in L3. by destruct L3.
    - rewrite Hm in L4. by destruct L4. }
  destruct Hm as (i & kv & Hi & Hkv & Hes).
  assert (Hlen : length (resolver_heap h t es) = S (length h + length es)).
  { unfold resolver_heap. rewrite length_app. cbn. lia. }
  pose proof (lookup_lt_Some _ _ _ Hes) as Hi_lt.
  exists (S (length h) + i). split; [lia|]. intros ext.
  assert (Hval : is_valid (mkGICS version (length h) (VStr s)
                             (Some [l1; l2; l3; l4]))
                   (resolver_heap h t es ++ ext) = VRef (S (length h) + i)).
  { rewrite (is_valid_entry _ _ s) by done. cbn [_definition].
    rewrite lookup_total_app_l by lia. by rewrite resolver_heap_get, Hi. }
  assert (Hent : (resolver_heap h t es ++ ext) !!! (S (length h) + i)
                 = marked (table_entry h t s) s).
  { rewrite lookup_total_app_l by lia.
    rewrite resolver_heap_entry, (list_lookup_total_correct _ _ _ Hes).
    destruct (key_index_lookup _ _ _ Hi) as (v & Hv).
    assert (kv = (s, v)) as -> by congruence.
    unfold table_entry. by rewrite (dict_get_key_index _ _ _ _ Hi Hv). }
  split; [done|]. split; [|done].
  rewrite Hval. cbn [truthy]. rewrite Hent.
  pose proof (dict_set_length_pos (table_entry h t s) "code" (VStr s)).
  apply negb_true_iff, Nat.eqb_neq. unfold marked. lia.
Qed.

End SameVersion.

Section SameVersionClaim.

Variables d_20140228 d_20160901 d_20180929 d_20230318 : loc.

Local Abbreviation DEFS :=
  (DEFINITIONS d_20140228 d_20160901 d_20180929 d_20230318).
Local Abbreviation init :=
  (GICS_init d_20140228 d_20160901 d_20180929 d_20230318).

(** X14.  Two resolvers of one revision: [is_same] is [True] exactly when
    they are both invalid or both valid with the same code, and [False]
    otherwise. *)
Lemma is_same_same_version (h : heap) (t : loc) (version : string)
  (ca cb : value) (a b : GICS) (h1 h2 : heap) :
  dict_get DEFS version = Some (VRef t) ->
  table_ok h t = true ->
  init ca version h = (Ok a, h1) ->
  init cb version h1 = (Ok b, h2) ->
  exists v,
    is_same a b h2 = Ok (VBool v)
    /\ (v = true <->
        (valid_code (dict_keys (h !!! t)) ca <-> valid_code (dict_keys (h !!! t)) cb)
        /\ (~ valid_code (dict_keys (h !!! t)) ca \/ ca = cb)).
Proof.
  intros Hv Hok Ha Hb.
  pose proof (table_ok_inv _ _ Hok) as (Ht & _).
  assert (Hext : exists ext, h1 = h ++ ext).
  { destruct (valid_code_dec (dict_keys (h !!! t)) ca) as [Hva|Hna].
    - pose proof Hva as (sa & -> & _).
      by destruct (init_valid_view _ _ _ _ h t version Hv Hok sa a h1 Hva Ha)
        as (_ & ? & _).
    - by destruct (init_invalid_view _ _ _ _ h t version Hv Hok ca a h1 Hna Ha). }
  destruct Hext as (ext1 & ->).
  pose proof (table_ok_ext h ext1 t Hok) as Hok1.
  assert (Hkeys : (h ++ ext1) !!! t = h !!! t) by (by rewrite lookup_total_app_l).
  destruct (valid_code_dec (dict_keys (h !!! t)) ca) as [Hva|Hna];
    destruct (valid_code_dec (dict_keys (h !!! t)) cb) as [Hvb|Hnb].
  - pose proof Hva as (sa & -> & _). pose proof Hvb as (sb & -> & _).
    destruct (init_valid_view _ _ _ _ h t version Hv Hok sa a _ Hva Ha)
      as (Hca & _ & ea & Hea & Hviewa).
    assert (Hvb1 : valid_code (dict_keys ((h ++ ext1) !!! t)) (VStr sb))
      by (by rewrite Hkeys).
    destruct (init_valid_view _ _ _ _ (h ++ ext1) t version Hv Hok1 sb b _ Hvb1 Hb)
      as (Hcb & (ext2 & ->) & eb & Heb & Hviewb).
    destruct (Hviewa ext2) as (Hia & Hta & Hma).
    destruct (Hviewb []) as (Hib & Htb & Hmb). rewrite app_nil_r in Hib, Htb, Hmb.
    pose proof Hva as (? & [= <-] & _ & Hka)%valid_code_shape.
    pose proof Hvb as (? & [= <-] & _ & Hkb)%valid_code_shape.
    rewrite (table_entry_ext h ext1 t sb Hok Hkb) in Hmb.
    destruct (table_entry_ok h t sa Hok Hka) as (Hsca & _ & _).
    destruct (table_entry_ok h t sb Hok Hkb) as (_ & Hndb & _).
    exists (String.eqb sa sb). split.
    + unfold is_same, code. rewrite Hia, Hib.
      rewrite (py_eq_marked _ ea eb (table_entry h t sa) (table_entry h t sb)
                 sa sb); [|lia|done|done|done|done|by intros ->].
      destruct (String.eqb sa sb) eqn:E; [|done].
      by rewrite Hca, Hcb, py_eq_str, E.
    + destruct (String.eqb_spec sa sb) as [->|Hne].
      * split; [intros _|done]. split; [done|by right].
      * split; [done|]. intros [_ [?|[= ?]]]; done.
  - pose proof Hva as (sa & -> & _).
    destruct (init_valid_view _ _ _ _ h t version Hv Hok sa a _ Hva Ha)
      as (Hca & _ & ea & Hea & Hviewa).
    assert (Hnb1 : ~ valid_code (dict_keys ((h ++ ext1) !!! t)) cb)
      by (by rewrite Hkeys).
    destruct (init_invalid_view _ _ _ _ (h ++ ext1) t version Hv Hok1 cb b _ Hnb1 Hb)
      as (Hcb & ext2 & ->).
    destruct (Hviewa ext2) as (_ & Hta & _).
    exists false. split; [exact (proj1 (is_same_valid_invalid a b _ Hta Hcb))|].
    split; [done|]. intros [Hiff _]. exfalso. by apply Hnb, Hiff.
  - pose proof Hvb as (sb & -> & _).
    destruct (init_invalid_view _ _ _ _ h t version Hv Hok ca a _ Hna Ha)
      as (Hca & _).
    assert (Hvb1 : valid_code (dict_keys ((h ++ ext1) !!! t)) (VStr sb))
      by (by rewrite Hkeys).
    destruct (init_valid_view _ _ _ _ (h ++ ext1) t version Hv Hok1 sb b _ Hvb1 Hb)
      as (Hcb & _ & eb & Heb & Hviewb).
    destruct (Hviewb []) as (_ & Htb & _). rewrite app_nil_r in Htb.
    exists false. split; [exact (proj2 (is_same_valid_invalid b a _ Htb Hca))|].
    split; [done|]. intros [Hiff _]. exfalso. by apply Hna, Hiff.
  - destruct (init_invalid_view _ _ _ _ h t version Hv Hok ca a _ Hna Ha)
      as (Hca & _).
    assert (Hnb1 : ~ valid_code (dict_keys ((h ++ ext1) !!! t)) cb)
      by (by rewrite Hkeys).
    destruct (init_invalid_view _ _ _ _ (h ++ ext1) t version Hv Hok1 cb b _ Hnb1 Hb)
      as (Hcb & _).
    exists true. split; [by apply is_same_invalid|].
    split; [intros _|done]. split; [done|by left].
Qed.

End SameVersionClaim.

(** ** The sample store at work *)

Definition sample_init (c : value) (version : string) : M GICS :=
  GICS_init 0 1 2 3 c version.

Definition no_resolver : GICS := mkGICS "" 0 VNone None.

Definition resolver_of (out : result GICS * heap) : GICS :=
  match fst out with Ok r => r | Raise _ => no_resolver end.

(** [GICS('1010')] and [GICS('123')], constructed in the sample store. *)
Definition resolver_1010 : GICS :=
  Eval vm_compute in resolver_of (sample_init (VStr "1010") "20230318" sample_heap).
Definition heap_1010 : heap :=
  Eval vm_compute in snd (sample_init (VStr "1010") "20230318" sample_heap).
Definition resolver_123 : GICS :=
  Eval vm_compute in resolver_of (sample_init (VStr "123") "20230318" sample_heap).
Definition heap_123 : heap :=
  Eval vm_compute in snd (sample_init (VStr "123") "20230318" sample_heap).

(** [GICS('50', '20160901')], then [GICS('50', '20180929')]. *)
Definition resolver_50_2016 : GICS :=
  Eval vm_compute in resolver_of (sample_init (VStr "50") "20160901" sample_heap).
Definition heap_50_2016 : heap :=
  Eval vm_compute in snd (sample_init (VStr "50") "20160901" sample_heap).
Definition resolver_50_2018 : GICS :=
  Eval vm_compute in resolver_of (sample_init (VStr "50") "20180929" heap_50_2016).
Definition heap_50_2018 : heap :=
  Eval vm_compute in snd (sample_init (VStr "50") "20180929" heap_50_2016).

(** C6.  Sector 50 is named differently in the revisions of 2016 and of
    2018.  The two resolvers of code 50 are both valid and hold the same
    code, and yet [is_same] answers [False]: it compares the values of
    [is_valid], which are the two table entries. *)
Theorem is_same_differs_across_versions :
  sample_init (VStr "50") "20160901" sample_heap
  = (Ok resolver_50_2016, heap_50_2016)
  /\ sample_init (VStr "50") "20180929" heap_50_2016
     = (Ok resolver_50_2018, heap_50_2018)
  /\ truthy heap_50_2018 (is_valid resolver_50_2016 heap_50_2018) = true
  /\ truthy heap_50_2018 (is_valid resolver_50_2018 heap_50_2018) = true
  /\ code resolver_50_2016 = VStr "50"
  /\ code resolver_50_2018 = VStr "50"
  /\ is_same resolver_50_2016 resolver_50_2018 heap_50_2018 = Ok (VBool false).
Proof. repeat split; vm_compute; reflexivity. Qed.

(** [bool] is a subclass of [int]: level [True] is level 1. *)
Example level_of_True : level resolver_1010 (VBool true) heap_1010 = Ok (VRef 14).
Proof. reflexivity. Qed.

Lemma sample_lookup : dict_get (DEFINITIONS 0 1 2 3) "20230318" = Some (VRef 3).
Proof. reflexivity. Defined.

Lemma sample_table_ok : table_ok sample_heap 3 = true.
Proof. vm_compute. reflexivity. Defined.

Lemma sample_init_1010 :
  sample_init (VStr "1010") "20230318" sample_heap = (Ok resolver_1010, heap_1010).
Proof. vm_compute. reflexivity. Defined.

Lemma sample_valid_1010 :
  valid_code (dict_keys (sample_heap !!! 3)) (VStr "1010").
Proof.
  exists "1010". split; [reflexivity|]. split; [discriminate|].
  split; [exists 2; reflexivity|]. split; [cbn; lia|].
  cbn. apply list_elem_of_further, list_elem_of_here.
Defined.

Lemma sample_invalid_123 :
  invalid_code (dict_keys (sample_heap !!! 3)) (VStr "123").
Proof.
  right; right; right. exists "123". split; [reflexivity|].
  left. exists 1. reflexivity.
Defined.

Lemma is_valid_iff_witness :
  truthy heap_1010 (is_valid resolver_1010 heap_1010) = true
  <-> valid_code (dict_keys (sample_heap !!! 3)) (VStr "1010").
Proof.
  exact (is_valid_iff 0 1 2 3 sample_heap 3 "20230318" (VStr "1010")
           resolver_1010 heap_1010
           sample_lookup sample_table_ok sample_init_1010).
Defined.

Lemma unsupported_version_raises_witness :
  sample_init (VStr "10") "blabla" sample_heap
  = (Raise (ValueError
       "Unsupported GICS version: blabla. Available versions are ['20140228', '20160901', '20180929', '20230318']"),
     sample_heap)
  /\ sample_init VNone "20230318" sample_heap
     <> (Raise (ValueError "none"), sample_heap).
Proof.
  split.
  - apply (proj1 (unsupported_version_raises 0 1 2 3 (VStr "10") "blabla"
                    sample_heap)).
    intros Hin. unfold known_versions in Hin.
    repeat (apply elem_of_cons in Hin as [Hin|Hin]; [discriminate Hin|]).
    inversion Hin.
  - apply (proj2 (unsupported_version_raises 0 1 2 3 VNone "20230318"
                    sample_heap)).
    + unfold known_versions. do 3 apply list_elem_of_further.
      apply list_elem_of_here.
    + intros t Ht. injection Ht as <-. discriminate.
Defined.

Lemma invalid_code_constructs_witness :
  exists r h',
    sample_init (VStr "123") "20230318" sample_heap = (Ok r, h')
    /\ truthy h' (is_valid r h') = false
    /\ (forall H, is_valid r H = VNone)
    /\ code r = VNone
    /\ sector r h' = Ok VNone /\ industry_group r h' = Ok VNone
    /\ industry r h' = Ok VNone /\ sub_industry r h' = Ok VNone
    /\ (forall n H, level r n H = Ok VNone).
Proof.
  exact (invalid_code_constructs 0 1 2 3 sample_heap 3 "20230318" (VStr "123")
           sample_lookup sample_table_ok sample_invalid_123).
Defined.

Lemma level_spec_witness :
  (exists e, level resolver_1010 (VInt 2) heap_1010 = Ok (VRef e)
             /\ dict_get (heap_1010 !!! e) "code" = Some (VStr "1010"))
  /\ level resolver_1010 (VInt 3) heap_1010 = Ok VNone
  /\ exists r h', sample_init (VStr "1010") "20230318" sample_heap = (Ok r, h').
Proof.
  destruct (level_spec 0 1 2 3 sample_heap 3 "20230318"
              sample_lookup sample_table_ok) as (_ & _ & Hlevels & Htotal).
  split; [|split].
  - apply (proj1 (Hlevels "1010" resolver_1010 heap_1010
                    sample_valid_1010 sample_init_1010 2 ltac:(lia))).
    cbn. lia.
  - apply (proj2 (Hlevels "1010" resolver_1010 heap_1010
                    sample_valid_1010 sample_init_1010 3 ltac:(lia))).
    cbn. lia.
  - apply (Htotal ltac:(vm_compute; reflexivity) "1010" sample_valid_1010).
Defined.

Lemma children_spec_witness :
  exists vs h'',
    children resolver_1010 heap_1010 = (Ok vs, h'')
    /\ contents h'' vs
       = [[("code", VStr "101010"); ("name", VStr "Energy Equipment & Services");
           ("description", VNone)]].
Proof.
  destruct (children_spec 0 1 2 3 sample_heap 3 "20230318" (VStr "1010")
              resolver_1010 heap_1010
              sample_lookup sample_table_ok sample_init_1010)
    as (vs & h'' & Hrun & _ & Hvalid & _).
  exists vs, h''. split; [exact Hrun|].
  rewrite (Hvalid "1010" sample_valid_1010 eq_refl).
  vm_compute. reflexivity.
Defined.

Lemma within_spec_witness :
  exists v w,
    is_within resolver_123 resolver_1010 heap_1010 = Ok v
    /\ truthy heap_1010 v = false
    /\ is_immediate_within resolver_123 resolver_1010 heap_1010 = Ok w
    /\ truthy heap_1010 w = false.
Proof.
  apply (proj2 (proj2 (proj2
           (within_spec resolver_123 resolver_1010 heap_1010)))).
  left. reflexivity.
Defined.

Lemma definitions_not_mutated_witness :
  let h' := snd (sample_init (VStr "50") "20180929" heap_1010) in
  is_valid resolver_1010 h' = is_valid resolver_1010 heap_1010
  /\ (forall n, value_closed (length heap_1010) n = true ->
                level resolver_1010 n h' = level resolver_1010 n heap_1010)
  /\ children_view resolver_1010 h' = children_view resolver_1010 heap_1010
  /\ is_same resolver_1010 resolver_1010 h'
     = is_same resolver_1010 resolver_1010 heap_1010
  /\ is_within resolver_1010 resolver_1010 h'
     = is_within resolver_1010 resolver_1010 heap_1010
  /\ is_immediate_within resolver_1010 resolver_1010 h'
     = is_immediate_within resolver_1010 resolver_1010 heap_1010.
Proof.
  apply (proj1 (proj2 (proj2 (proj2
           (definitions_not_mutated 0 1 2 3 (VStr "50") "20180929" heap_1010))))).
  - vm_compute. reflexivity.
  - vm_compute. reflexivity.
  - vm_compute. reflexivity.
Defined.

Lemma level_total_without_levels_witness :
  exists r h',
    sample_init (VStr "123") "20230318" sample_heap = (Ok r, h')
    /\ _levels r = None
    /\ forall n H, level r n H = Ok VNone.
Proof.
  apply (proj1 (level_total_without_levels 0 1 2 3 sample_heap 3 "20230318"
                  (VStr "123") sample_lookup sample_table_ok
                  (invalid_code_not_valid _ _ sample_invalid_123))).
Defined.

(** * Further properties of the resolver and of [Map] *)

(** ** Relations between resolvers *)

Lemma holds_within (a b : GICS) (H : heap) :
  holds H (is_within a b H) <-> within a b H.
Proof.
  destruct (is_within_truthy a b H) as (v & Hrun & Hv). unfold holds.
  rewrite Hrun. split.
  - intros (w & [= <-] & Hw). by apply Hv.
  - intros Hw. exists v. split; [done|]. by apply Hv.
Qed.

Lemma holds_immediate_within (a b : GICS) (H : heap) :
  holds H (is_immediate_within a b H) <-> immediate_within a b H.
Proof.
  destruct (is_immediate_within_truthy a b H) as (v & Hrun & Hv). unfold holds.
  rewrite Hrun. split.
  - intros (w & [= <-] & Hw). by apply Hv.
  - intros Hw. exists v. split; [done|]. by apply Hv.
Qed.

Lemma string_app_length (a b : string) :
  String.length (a +:+ b) = String.length a + String.length b.
Proof.
  induction a as [|x a IH]; [done|].
  change (String x a +:+ b) with (String x (a +:+ b)). cbn. by rewrite IH.
Qed.

Lemma string_app_assoc (a b c : string) : (a +:+ b) +:+ c = a +:+ (b +:+ c).
Proof.
  induction a as [|x a IH]; [done|].
  change ((String x a +:+ b) +:+ c) with (String x ((a +:+ b) +:+ c)).
  by rewrite IH.
Qed.

Lemma string_app_nil_r (a : string) : a +:+ "" = a.
Proof.
  induction a as [|x a IH]; [done|].
  change (String x a +:+ "") with (String x (a +:+ "")). by rewrite IH.
Qed.

Lemma string_length_0 (a : string) : String.length a = 0 -> a = "".
Proof. by destruct a. Qed.

Lemma py_eq_refl depth (H : heap) v : py_eq depth H v v = Ok true.
Proof.
  destruct depth, v as [|[]| | |l]; cbn;
    rewrite ?Z.eqb_refl, ?String.eqb_refl, ?Nat.eqb_refl; done.
Qed.

(** X13.  [is_same] is reflexive: every resolver, valid or not, in every store,
    is the same as itself. *)
Theorem is_same_refl (a : GICS) (H : heap) : is_same a a H = Ok (VBool true).
Proof.
  unfold is_same, code. rewrite !py_eq_refl.
  by destruct (is_valid a H) as [|[]| | |].
Qed.

Lemma within_asym (a b : GICS) (H : heap) : within a b H -> ~ within b a H.
Proof.
  unfold within.
  intros (_ & _ & Hne & ca & cb & r1 & Ha & Hb & Hr1)
         (_ & _ & _ & cb' & ca' & r2 & Hb' & Ha' & Hr2).
  rewrite Ha in Ha'. rewrite Hb in Hb'. injection Ha' as <-. injection Hb' as <-.
  assert (Hl1 := f_equal String.length Hr1).
  assert (Hl2 := f_equal String.length Hr2).
  rewrite string_app_length in Hl1, Hl2.
  assert (r1 = "") as -> by (apply string_length_0; lia).
  rewrite string_app_nil_r in Hr1. apply Hne. congruence.
Qed.

Lemma within_trans (a b c : GICS) (H : heap) :
  within a b H -> within b c H -> within a c H.
Proof.
  unfold within.
  intros (Va & _ & Hab & ca & cb & r1 & Ha & Hb & Hr1)
         (_ & Vc & Hbc & cb' & cc & r2 & Hb' & Hc & Hr2).
  rewrite Hb in Hb'. injection Hb' as <-.
  split; [done|]. split; [done|].
  assert (Hr : ca = cc +:+ (r2 +:+ r1))
    by (by rewrite Hr1, Hr2, string_app_assoc).
  split.
  - rewrite Ha, Hc. intros [= Heq].
    assert (Hl := f_equal String.length Hr).
    assert (Hl2 := f_equal String.length Hr2).
    assert (Hl3 := f_equal String.length Heq).
    rewrite !string_app_length in Hl. rewrite string_app_length in Hl2.
    assert (r2 = "") as -> by (apply string_length_0; lia).
    rewrite string_app_nil_r in Hr2. apply Hbc. congruence.
  - by exists ca, cc, (r2 +:+ r1).
Qed.

(** X16.  [is_within] is a strict order on resolvers: if [a] is within [b]
    then [b] is not within [a], and within of within is within. *)
Theorem is_within_strict_order (a b c : GICS) (H : heap) :
  (holds H (is_within a b H) -> ~ holds H (is_within b a H))
  /\ (holds H (is_within a b H) -> holds H (is_within b c H) ->
      holds H (is_within a c H)).
Proof.
  rewrite !holds_within. split; [apply within_asym|apply within_trans].
Qed.

(** X17.  [is_immediate_within] is one step of [is_within]: it implies
    [is_within], and two immediate steps are within but never immediate. *)
Theorem is_immediate_within_step (a b c : GICS) (H : heap) :
  (holds H (is_immediate_within a b H) -> holds H (is_within a b H))
  /\ (holds H (is_immediate_within a b H) ->
      holds H (is_immediate_within b c H) ->
      holds H (is_within a c H) /\ ~ holds H (is_immediate_within a c H)).
Proof.
  rewrite !holds_immediate_within, !holds_within. split; [by intros [? _]|].
  intros [Wab (ca & cb & Ha & Hb & Hl1)] [Wbc (cb' & cc & Hb' & Hc & Hl2)].
  split; [by eapply within_trans|].
  rewrite Hb in Hb'. injection Hb' as <-.
  intros (_ & ca' & cc' & Ha' & Hc' & Hl3).
  rewrite Ha in Ha'. rewrite Hc in Hc'.
  injection Ha' as <-. injection Hc' as <-. lia.
Qed.

(** ** [Map.create_recursively] *)

(** X1.  In any store [Map.create_recursively] only appends: the objects that
    were there are untouched, the result is the first new object, and the
    only exception is [RecursionError]. *)
Theorem create_recursively_appends depth data (H : heap) :
  (exists ext, snd (create_recursively depth data H) = H ++ ext)
  /\ (forall l, l < length H ->
                snd (create_recursively depth data H) !!! l = H !!! l)
  /\ (forall p, fst (create_recursively depth data H) = Ok p ->
                p = length H
                /\ length H < length (snd (create_recursively depth data H)))
  /\ (forall e, fst (create_recursively depth data H) = Raise e ->
                e = RecursionError).
Proof.
  pose proof (create_recursively_frame depth data H) as Hf.
  destruct (create_recursively depth data H) as [[p|e] H']; cbn [fst snd].
  - destruct Hf as (-> & top & more & -> & _).
    split; [by eexists|]. split; [intros l Hl; by rewrite lookup_total_app_l|].
    split; [|done]. intros p [= <-]. split; [done|].
    rewrite length_app. cbn. lia.
  - destruct Hf as (-> & ext & ->).
    split; [by eexists|]. split; [intros l Hl; by rewrite lookup_total_app_l|].
    split; [done|]. by intros e [= <-].
Qed.

(** X2.  The copy of a well-formed table: a new dictionary with the same keys in
    the same order, whose values are new entries, one object per key, each
    with the items of the entry it copies. *)
Theorem create_recursively_copies depth (h : heap) (t : loc) :
  table_ok h t = true ->
  exists h',
    create_recursively (S (S depth)) t h = (Ok (length h), h')
    /\ dict_keys (h' !!! length h) = dict_keys (h !!! t)
    /\ (forall k, k ∈ dict_keys (h !!! t) ->
          exists e, dict_get (h' !!! length h) k = Some (VRef e)
                    /\ length h < e /\ e < length h'
                    /\ h' !!! e = table_entry h t k)
    /\ (forall k1 k2 e,
          dict_get (h' !!! length h) k1 = Some (VRef e) ->
          dict_get (h' !!! length h) k2 = Some (VRef e) -> k1 = k2).
Proof.
  intros Hok. eexists. split; [by apply create_recursively_table|].
  fold (resolver_heap h t (map (entry_of h) (h !!! t))).
  rewrite resolver_heap_top.
  split; [apply dict_keys_relocate|]. split.
  - intros k Hk. destruct (key_index_is_Some _ _ Hk) as (i & Hi).
    destruct (key_index_lookup _ _ _ Hi) as (v & Hv).
    exists (S (length h) + i). rewrite dict_get_relocate, Hi.
    split; [done|]. split; [lia|]. split.
    + unfold resolver_heap. rewrite length_app. cbn. rewrite length_map.
      apply lookup_lt_Some in Hv. lia.
    + rewrite resolver_heap_entry.
      assert (Hm : map (entry_of h) (h !!! t) !! i = Some (entry_of h (k, v)))
        by (by rewrite list_lookup_fmap, Hv).
      rewrite (list_lookup_total_correct _ _ _ Hm).
      unfold table_entry. by rewrite (dict_get_key_index _ _ _ _ Hi Hv).
  - intros k1 k2 e. rewrite !dict_get_relocate.
    destruct (key_index (h !!! t) k1) as [i1|] eqn:E1; [|done].
    destruct (key_index (h !!! t) k2) as [i2|] eqn:E2; [|done].
    cbn. intros [= <-] [= Heq]. assert (i2 = i1) as -> by lia.
    destruct (key_index_lookup _ _ _ E1) as (v1 & Hv1).
    destruct (key_index_lookup _ _ _ E2) as (v2 & Hv2). congruence.
Qed.

(** The loop of the copy reaches the item that refers to the dictionary
    itself, unless an earlier item has already failed. *)
Lemma copy_loop_cycle depth (H : heap) (l : loc) (k : string)
  (IH : forall H0 : heap, l < length H0 -> (k, VRef l) ∈ H0 !!! l ->
          exists H', create_recursively depth l H0 = (Raise RecursionError, H'))
  (Hl : l < length H) (Hin : (k, VRef l) ∈ H !!! l) (rest : list (string * value)) :
  (k, VRef l) ∈ rest ->
  forall ext,
    exists H', for_each rest (copy_body (create_recursively depth) (length H))
                 (H ++ ext) = (Raise RecursionError, H').
Proof.
  induction rest as [|[k0 v0] rest IHrest]; intros Hrest ext.
  - by apply elem_of_nil in Hrest.
  - cbn [for_each].
    destruct v0 as [| | | |l0];
      try (rewrite (bind_Ok _ _ _ tt (H ++ ext)) by done;
           apply IHrest;
           by apply elem_of_cons in Hrest as [[= _ ?]|?]).
    cbn [copy_body]. unfold bind at 1 2.
    pose proof (create_recursively_frame depth l0 (H ++ ext)) as Hf.
    destruct (decide (l0 = l)) as [->|Hne].
    + destruct (IH (H ++ ext)) as (H' & ->);
        [rewrite length_app; lia|by rewrite lookup_total_app_l|by eexists].
    + destruct (create_recursively depth l0 (H ++ ext)) as [[c|e] H1].
      * destruct Hf as (-> & top & more & -> & _).
        unfold setitem. rewrite <- app_assoc.
        rewrite insert_app_r_alt by done.
        apply IHrest.
        apply elem_of_cons in Hrest as [[= _ ?]|?]; [congruence|done].
      * destruct Hf as (-> & _). by eexists.
Qed.

(** X3.  A dictionary that contains itself cannot be copied: whatever the
    recursion limit, [Map.create_recursively] ends in [RecursionError]. *)
Theorem create_recursively_cycle depth :
  forall (H : heap) (l : loc) (k : string),
    l < length H -> (k, VRef l) ∈ H !!! l ->
    exists H', create_recursively depth l H = (Raise RecursionError, H').
Proof.
  induction depth as [|depth IH]; intros H l k Hl Hin; [by eexists|].
  rewrite create_recursively_S.
  unfold bind at 1. unfold deref at 1, gets at 1.
  unfold bind at 1. unfold alloc at 1.
  unfold bind at 1. unfold deref at 1, gets at 1.
  rewrite list_lookup_total_middle by done.
  destruct (copy_loop_cycle depth H l k (fun H0 => IH H0 l k) Hl Hin
              (H !!! l) Hin [H !!! l]) as (H' & Hrun).
  rewrite (bind_Raise _ _ _ _ _ Hrun). by eexists.
Qed.

(** ** Prefixes of a code *)

Lemma substring_0_length n s :
  n <= String.length s -> String.length (substring 0 n s) = n.
Proof.
  revert s. induction n as [|n IH]; intros s Hn.
  - by destruct s.
  - destruct s as [|x s]; cbn in *; [lia|]. rewrite IH; [done|lia].
Qed.

Lemma substring_0_app n s : exists rest, s = substring 0 n s +:+ rest.
Proof.
  revert s. induction n as [|n IH]; intros s.
  - exists s. by destruct s.
  - destruct s as [|x s]; [by exists ""|].
    destruct (IH s) as (rest & Hr). exists rest. cbn [substring].
    change (String x (substring 0 n s) +:+ rest)
      with (String x (substring 0 n s +:+ rest)). by rewrite <- Hr.
Qed.

Lemma substring_app_prefix (a r : string) :
  substring 0 (String.length a) (a +:+ r) = a.
Proof.
  induction a as [|x a IH]; [by destruct r|].
  change (String x a +:+ r) with (String x (a +:+ r)). cbn. by rewrite IH.
Qed.

(** ** The levels of a valid resolver *)

Lemma level_in_store (r : GICS) (H : heap) levels k :
  truthy H (is_valid r H) = true -> _levels r = Some levels -> 1 <= k <= 4 ->
  level r (VInt (Z.of_nat k)) H
  = match levels !! (k - 1) with Some v => Ok v | None => Raise IndexError end.
Proof.
  intros Hv Hl Hk. unfold level. rewrite Hv, Hl.
  cbn [truthy negb orb as_int].
  replace (Z.of_nat k =? 0)%Z with false by (symmetry; apply Z.eqb_neq; lia).
  replace (Z.of_nat k <? 1)%Z with false by (symmetry; apply Z.ltb_ge; lia).
  replace (Z.of_nat k >? 4)%Z with false
    by (symmetry; rewrite Z.gtb_ltb; apply Z.ltb_ge; lia).
  cbn [negb orb].
  by replace (Z.to_nat (Z.of_nat k - 1)) with (k - 1) by lia.
Qed.

Lemma level_ok_view (h : heap) t es c v (ext : heap) :
  level_ok h t es true c v ->
  exists e, v = VRef e
            /\ length h < e < length (resolver_heap h t es)
            /\ (resolver_heap h t es ++ ext) !!! e = marked (table_entry h t c) c
            /\ dict_get ((resolver_heap h t es ++ ext) !!! length h) c
               = Some (VRef e).
Proof.
  intros [(i & Hi & ->) (i' & kv & Hi' & Hkv & Hes)].
  assert (i' = i) as -> by congruence.
  assert (Hlen : length (resolver_heap h t es) = S (length h + length es)).
  { unfold resolver_heap. rewrite length_app. cbn. lia. }
  pose proof (lookup_lt_Some _ _ _ Hes) as Hlt.
  exists (S (length h) + i). split; [done|]. split; [lia|]. split.
  - rewrite lookup_total_app_l by lia.
    rewrite resolver_heap_entry, (list_lookup_total_correct _ _ _ Hes).
    destruct (key_index_lookup _ _ _ Hi) as (v & Hv).
    assert (kv = (c, v)) as -> by congruence.
    unfold table_entry. by rewrite (dict_get_key_index _ _ _ _ Hi Hv).
  - rewrite lookup_total_app_l by lia.
    by rewrite resolver_heap_top, dict_get_relocate, Hi.
Qed.

Section Levels.

Variables d_20140228 d_20160901 d_20180929 d_20230318 : loc.

Local Abbreviation DEFS :=
  (DEFINITIONS d_20140228 d_20160901 d_20180929 d_20230318).
Local Abbreviation init :=
  (GICS_init d_20140228 d_20160901 d_20180929 d_20230318).

Variables (h : heap) (t : loc) (version : string).
Hypothesis Hversion : dict_get DEFS version = Some (VRef t).
Hypothesis Hok : table_ok h t = true.

(** Level [k] of a valid resolver, in the store of its construction and
    in every store that extends it. *)
Lemma init_valid_levels s (r : GICS) (h' ext : heap) k :
  valid_code (dict_keys (h !!! t)) (VStr s) ->
  init (VStr s) version h = (Ok r, h') ->
  1 <= k <= 4 -> 2 * k <= String.length s ->
  exists e,
    level r (VInt (Z.of_nat k)) (h' ++ ext) = Ok (VRef e)
    /\ length h < e < length h'
    /\ (h' ++ ext) !!! e
       = marked (table_entry h t (substring 0 (2 * k) s)) (substring 0 (2 * k) s)
    /\ dict_get ((h' ++ ext) !!! _definition r) (substring 0 (2 * k) s)
       = Some (VRef e)
    /\ substring 0 (2 * k) s ∈ dict_keys (h !!! t).
Proof.
  intros Hvalid Hinit Hk Hlen.
  destruct (init_valid_view _ _ _ _ h t version Hversion Hok s r h' Hvalid Hinit)
    as (_ & _ & e0 & _ & Hview).
  destruct (Hview ext) as (_ & Htrue & _). clear Hview e0.
  pose proof Hvalid as (s' & [= <-] & Hs & Hkey)%valid_code_shape.
  pose proof (init_valid _ _ _ _ h t version Hversion Hok s Hs Hkey) as Hrun.
  rewrite Hinit in Hrun.
  destruct Hrun as (es & l1 & l2 & l3 & l4 & -> & -> & Hinv & L1 & L2 & L3 & L4).
  rewrite (level_in_store _ _ [l1; l2; l3; l4] k Htrue eq_refl Hk).
  assert (Hall : forall c v, level_ok h t es true c v ->
            exists e, Ok v = Ok (VRef e)
              /\ length h < e < length (resolver_heap h t es)
              /\ (resolver_heap h t es ++ ext) !!! e = marked (table_entry h t c) c
              /\ dict_get ((resolver_heap h t es ++ ext) !!! length h) c
                 = Some (VRef e)
              /\ c ∈ dict_keys (h !!! t)).
  { intros c v Lc. pose proof Lc as [(i & Hi & _) _].
    destruct (level_ok_view h t es c v ext Lc) as (e & -> & ? & ? & ?).
    exists e. do 4 (split; [done|]).
    destruct (decide (c ∈ dict_keys (h !!! t))) as [|Hn]; [done|].
    apply key_index_None in Hn. congruence. }
  cbn [_definition].
  assert (k = 1 \/ k = 2 \/ k = 3 \/ k = 4) as [-> | [-> | [-> | ->]]] by lia;
    cbn [lookup list_lookup Nat.sub Nat.mul Nat.add] in *.
  - by apply Hall.
  - apply Nat.leb_le in Hlen. rewrite Hlen in L2. by apply Hall.
  - apply Nat.leb_le in Hlen. rewrite Hlen in L3. by apply Hall.
  - apply Nat.leb_le in Hlen. rewrite Hlen in L4. by apply Hall.
Qed.

(** X8.  The descriptor of a level is the resolver's own copy of the table
    entry of the prefix: a new object with the items of that entry, its
    name and description among them, and the prefix under [code].  It is
    the value the resolver's table holds for the prefix, and the value of
    [is_valid] when the prefix is the whole code. *)
Theorem level_descriptor s (r : GICS) (h' : heap) k :
  valid_code (dict_keys (h !!! t)) (VStr s) ->
  init (VStr s) version h = (Ok r, h') ->
  1 <= k <= 4 -> 2 * k <= String.length s ->
  exists e,
    level r (VInt (Z.of_nat k)) h' = Ok (VRef e)
    /\ length h < e < length h'
    /\ h' !!! e = dict_set (table_entry h t (substring 0 (2 * k) s)) "code"
                    (VStr (substring 0 (2 * k) s))
    /\ dict_get_default (h' !!! e) "name"
       = dict_get_default (table_entry h t (substring 0 (2 * k) s)) "name"
    /\ dict_get_default (h' !!! e) "description"
       = dict_get_default (table_entry h t (substring 0 (2 * k) s)) "description"
    /\ dict_get (h' !!! definition r) (substring 0 (2 * k) s) = Some (VRef e)
    /\ (2 * k = String.length s -> is_valid r h' = VRef e).
Proof.
  intros Hvalid Hinit Hk Hlen.
  destruct (init_valid_levels s r h' [] k Hvalid Hinit Hk Hlen)
    as (e & Hlevel & He & Hcont & Hget & _).
  rewrite app_nil_r in Hlevel, Hcont, Hget.
  exists e. split; [done|]. split; [done|]. split; [done|].
  split; [by rewrite Hcont, dict_get_default_marked|].
  split; [by rewrite Hcont, dict_get_default_marked|].
  split; [done|]. intros Hfull.
  pose proof Hvalid as (s' & [= <-] & Hs & _)%valid_code_shape.
  destruct (init_valid_view _ _ _ _ h t version Hversion Hok s r h' Hvalid Hinit)
    as (Hcode & _).
  rewrite (is_valid_entry r h' s Hcode Hs). unfold dict_get_default.
  rewrite Hfull, substring_full in Hget. unfold definition in Hget.
  by rewrite Hget.
Qed.

(** X7.  The stored code is the supplied code when it is valid and [None]
    otherwise, and the resolver keeps the requested version. *)
Theorem code_roundtrip c (r : GICS) (h' : heap) :
  init c version h = (Ok r, h') ->
  (valid_code (dict_keys (h !!! t)) c -> code r = c)
  /\ (~ valid_code (dict_keys (h !!! t)) c -> code r = VNone)
  /\ _definition_version r = version.
Proof.
  intros Hinit.
  destruct (valid_code_dec (dict_keys (h !!! t)) c) as [Hvalid|Hinvalid].
  - pose proof Hvalid as (s & -> & Hs & Hk)%valid_code_shape.
    pose proof (init_valid _ _ _ _ h t version Hversion Hok s Hs Hk) as Hrun.
    rewrite Hinit in Hrun. destruct Hrun as (es & l1 & l2 & l3 & l4 & -> & _).
    done.
  - pose proof Hinvalid as Hn. rewrite valid_code_shape in Hn.
    rewrite (init_invalid _ _ _ _ h t version Hversion Hok c Hn) in Hinit.
    injection Hinit as <- <-. done.
Qed.

(** X6.  A valid code constructs exactly when its proper prefixes of length 2,
    4 and 6 are keys of the table; otherwise [__init__] ends in the
    [KeyError] of a missing prefix. *)
Theorem init_missing_prefix s :
  valid_code (dict_keys (h !!! t)) (VStr s) ->
  ((exists r h', init (VStr s) version h = (Ok r, h'))
   <-> forall j, j ∈ [2; 4; 6] -> j < String.length s ->
                 substring 0 j s ∈ dict_keys (h !!! t))
  /\ (forall e h', init (VStr s) version h = (Raise e, h') ->
        exists j, j ∈ [2; 4; 6] /\ j < String.length s
                  /\ (substring 0 j s ∉ dict_keys (h !!! t))
                  /\ e = KeyError (substring 0 j s)).
Proof.
  intros Hvalid.
  pose proof Hvalid as (s' & [= <-] & Hs & Hk)%valid_code_shape.
  pose proof (init_valid _ _ _ _ h t version Hversion Hok s Hs Hk) as Hrun.
  split; [split|].
  - intros (r & h' & Hinit) j Hj Hlt.
    assert (Hjk : exists k, j = 2 * k /\ 1 <= k <= 4).
    { repeat (apply elem_of_cons in Hj as [->|Hj]);
        [exists 1; lia|exists 2; lia|exists 3; lia|by apply elem_of_nil in Hj]. }
    destruct Hjk as (k & -> & Hk14).
    destruct (init_valid_levels s r h' [] k Hvalid Hinit Hk14 ltac:(lia))
      as (e & _ & _ & _ & _ & Hin). done.
  - intros Hall.
    destruct (init (VStr s) version h) as [[r|e] h']; [by eexists _, _|].
    destruct Hrun as (j & Hj & Hlt & Hn & _). exfalso. by apply Hn, Hall.
  - intros e h' Hinit. by rewrite Hinit in Hrun.
Qed.

End Levels.

Section Hierarchy.

Variables d_20140228 d_20160901 d_20180929 d_20230318 : loc.

Local Abbreviation DEFS :=
  (DEFINITIONS d_20140228 d_20160901 d_20180929 d_20230318).
Local Abbreviation init :=
  (GICS_init d_20140228 d_20160901 d_20180929 d_20230318).

Variables (h : heap) (t : loc) (version : string).
Hypothesis Hversion : dict_get DEFS version = Some (VRef t).
Hypothesis Hok : table_ok h t = true.

(** X19.  A valid resolver is within another valid one exactly when the code of
    the other is the code of one of its own levels above its last. *)
Theorem within_iff_ancestor_level s (a b : GICS) (h' ext : heap) :
  valid_code (dict_keys (h !!! t)) (VStr s) ->
  init (VStr s) version h = (Ok a, h') ->
  holds (h' ++ ext) (is_within a b (h' ++ ext))
  <-> truthy (h' ++ ext) (is_valid b (h' ++ ext)) = true
      /\ exists k e,
          1 <= k /\ 2 * k < String.length s
          /\ level a (VInt (Z.of_nat k)) (h' ++ ext) = Ok (VRef e)
          /\ dict_get ((h' ++ ext) !!! e) "code" = Some (code b).
Proof.
  intros Hvalid Hinit.
  destruct (init_valid_view _ _ _ _ h t version Hversion Hok s a h' Hvalid Hinit)
    as (Hcode & _ & e0 & _ & Hview).
  destruct (Hview ext) as (_ & Ta & _). clear Hview e0.
  pose proof Hvalid as (_ & [= <-] & _ & _ & [_ Hs8] & _).
  rewrite holds_within. unfold within, code. split.
  - intros (_ & Tb & Hne & ca & cb & rest & Ha & Hb & Hr).
    rewrite Hcode in Ha. injection Ha as <-. split; [done|].
    apply is_valid_truthy in Tb as (cb' & Hb' & Hshape & _).
    rewrite Hb in Hb'. injection Hb' as <-.
    apply code_shape_spec in Hshape as (Hb0 & [k Hk] & Hb2 & _).
    assert (Hl := f_equal String.length Hr). rewrite string_app_length in Hl.
    assert (String.length rest <> 0).
    { intros ->%string_length_0. rewrite string_app_nil_r in Hr.
      apply Hne. congruence. }
    destruct (init_valid_levels _ _ _ _ h t version Hversion Hok s a h' ext k
                Hvalid Hinit ltac:(lia) ltac:(lia))
      as (e & Hlevel & _ & Hcont & _).
    exists k, e. split; [lia|]. split; [lia|]. split; [done|].
    rewrite Hcont, Hb. unfold marked. rewrite dict_get_set_eq.
    by rewrite <- Hk, Hr, substring_app_prefix.
  - intros (Tb & k & e & Hk1 & Hlt & Hlevel & Hcodeb).
    destruct (init_valid_levels _ _ _ _ h t version Hversion Hok s a h' ext k
                Hvalid Hinit ltac:(lia) ltac:(lia))
      as (e' & Hlevel' & _ & Hcont & _).
    rewrite Hlevel in Hlevel'. injection Hlevel' as <-.
    rewrite Hcont in Hcodeb. unfold marked in Hcodeb.
    rewrite dict_get_set_eq in Hcodeb. injection Hcodeb as Hb.
    change (k + (k + 0)) with (2 * k) in Hb.
    pose proof (substring_0_length (2 * k) s ltac:(lia)) as Hlen.
    split; [done|]. split; [done|]. rewrite Hcode, <- Hb. split.
    + intros Heq.
      assert (String.length s = String.length (substring 0 (2 * k) s))
        by congruence.
      lia.
    + destruct (substring_0_app (2 * k) s) as (rest & Hr).
      by exists s, (substring 0 (2 * k) s), rest.
Qed.

(** X11.  Every record that [children] returns for a valid resolver carries the
    code of a resolver that is immediately within it: constructed for the
    same version, that code is valid, and [contains_immediate] is true. *)
Theorem children_are_immediate s (r : GICS) (h1 : heap) vs (h2 : heap) d :
  prefix_closed (dict_keys (h !!! t)) = true ->
  (forall k, k ∈ dict_keys (h !!! t) -> String.length k <= 8) ->
  valid_code (dict_keys (h !!! t)) (VStr s) ->
  init (VStr s) version h = (Ok r, h1) ->
  children r h1 = (Ok vs, h2) ->
  d ∈ contents h2 vs ->
  exists k rk h3,
    dict_get d "code" = Some (VStr k)
    /\ init (VStr k) version h2 = (Ok rk, h3)
    /\ holds h3 (is_immediate_within rk r h3)
    /\ holds h3 (contains_immediate r rk h3).
Proof.
  intros Hpc Hle Hvalid Hinit Hchildren Hd.
  destruct (init_valid_view _ _ _ _ h t version Hversion Hok s r h1 Hvalid Hinit)
    as (Hcode & _ & e0 & _ & Hview).
  pose proof Hvalid as (s' & [= <-] & Hs & Hkey)%valid_code_shape.
  pose proof (init_valid _ _ _ _ h t version Hversion Hok s Hs Hkey) as Hrun.
  rewrite Hinit in Hrun.
  destruct Hrun as (es & l1 & l2 & l3 & l4 & -> & -> & Hinv & _).
  destruct (resolver_children h t Hok es version (VStr s)
              (Some [l1; l2; l3; l4]) Hinv) as (vs' & H2 & Hrun & Hcont & rows & HH2).
  { right. by exists s. }
  rewrite Hchildren in Hrun. injection Hrun as <- <-.
  rewrite Hcont in Hd. apply list_elem_of_fmap in Hd as (k & -> & Hsel).
  unfold selected in Hsel. apply list_elem_of_filter in Hsel as [Hp Hk].
  apply andb_True in Hp as [Hpre%Is_true_true Hlen%Is_true_true].
  apply Nat.eqb_eq in Hlen. apply prefix_app in Hpre as (rest & Hrest).
  assert (Hext : exists ext, h2 = h ++ ext).
  { rewrite HH2. unfold resolver_heap. rewrite <- app_assoc. by eexists. }
  destruct Hext as (ext2 & Hh2).
  assert (Hok2 : table_ok h2 t = true) by (rewrite Hh2; by apply table_ok_ext).
  pose proof (table_ok_inv _ _ Hok) as (Ht & _).
  assert (Hkeys : dict_keys (h2 !!! t) = dict_keys (h !!! t))
    by (by rewrite Hh2, lookup_total_app_l).
  assert (Hshape : code_shape k = true).
  { apply code_shape_spec. apply code_shape_spec in Hs as (_ & [m Hm] & ? & ?).
    split; [intros ->; cbn in Hlen; lia|]. split; [exists (S m); lia|].
    specialize (Hle k Hk). lia. }
  assert (Hvalidk : valid_code (dict_keys (h2 !!! t)) (VStr k)).
  { apply valid_code_shape. exists k. by rewrite Hkeys. }
  pose proof (init_valid _ _ _ _ h2 t version Hversion Hok2 k Hshape) as Hrunk.
  rewrite Hkeys in Hrunk. specialize (Hrunk Hk).
  destruct (init (VStr k) version h2) as [[rk|e] h3] eqn:Hinitk; cycle 1.
  { destruct Hrunk as (j & Hj & Hlt & Hn & _). exfalso.
    by apply Hn, prefix_closed_elem. }
  clear Hrunk.
  destruct (init_valid_view _ _ _ _ h2 t version Hversion Hok2 k rk h3
              Hvalidk Hinitk) as (Hcodek & (ext3 & Hh3) & ek & _ & Hviewk).
  destruct (Hviewk []) as (_ & Tk & _). rewrite app_nil_r in Tk.
  destruct (Hview (rows ++ ext3)) as (_ & Tr & _).
  rewrite app_assoc, <- HH2, <- Hh3 in Tr.
  exists k, rk, h3. split; [done|]. split; [done|].
  match goal with |- holds _ ?x /\ _ => assert (Himm : holds h3 x) end.
  { apply holds_immediate_within. unfold immediate_within, within, code.
    rewrite Hcodek, Hcode. split.
    - do 2 (split; [done|]). split.
      + intros [= ->]. lia.
      + by exists k, s, rest.
    - by exists k, s. }
  split; [done|]. exact Himm.
Qed.

End Hierarchy.

Section AcrossVersions.

Variables d_20140228 d_20160901 d_20180929 d_20230318 : loc.

Local Abbreviation DEFS :=
  (DEFINITIONS d_20140228 d_20160901 d_20180929 d_20230318).
Local Abbreviation init :=
  (GICS_init d_20140228 d_20160901 d_20180929 d_20230318).

(** X15.  Two valid resolvers of the same code, bound to two versions that name
    the code differently: [is_same] answers [False], because it compares
    the table entries that [is_valid] returns. *)
Theorem is_same_name_differs (h : heap) (ta tb : loc) (va vb : string)
  (s na nb : string) (a b : GICS) (h1 h2 : heap) :
  dict_get DEFS va = Some (VRef ta) -> dict_get DEFS vb = Some (VRef tb) ->
  table_ok h ta = true -> table_ok h tb = true ->
  valid_code (dict_keys (h !!! ta)) (VStr s) ->
  valid_code (dict_keys (h !!! tb)) (VStr s) ->
  dict_get (table_entry h ta s) "name" = Some (VStr na) ->
  dict_get (table_entry h tb s) "name" = Some (VStr nb) ->
  na <> nb ->
  init (VStr s) va h = (Ok a, h1) ->
  init (VStr s) vb h1 = (Ok b, h2) ->
  code a = code b /\ is_same a b h2 = Ok (VBool false).
Proof.
  intros Hva Hvb Hoka Hokb Hvalida Hvalidb Hna Hnb Hne Ha Hb.
  destruct (init_valid_view _ _ _ _ h ta va Hva Hoka s a h1 Hvalida Ha)
    as (Hca & (ext1 & Hh1) & ea & Hea & Hviewa).
  pose proof (table_ok_inv _ _ Hokb) as (Htb & _).
  pose proof Hvalidb as (? & [= <-] & _ & Hkb)%valid_code_shape.
  pose proof Hvalida as (? & [= <-] & _ & Hka)%valid_code_shape.
  assert (Hokb1 : table_ok h1 tb = true) by (rewrite Hh1; by apply table_ok_ext).
  assert (Hkeys : dict_keys (h1 !!! tb) = dict_keys (h !!! tb))
    by (by rewrite Hh1, lookup_total_app_l).
  assert (Hvalidb1 : valid_code (dict_keys (h1 !!! tb)) (VStr s))
    by (by rewrite Hkeys).
  destruct (init_valid_view _ _ _ _ h1 tb vb Hvb Hokb1 s b h2 Hvalidb1 Hb)
    as (Hcb & (ext2 & Hh2) & eb & Heb & Hviewb).
  destruct (Hviewa ext2) as (Hia & _ & Hma). rewrite <- Hh2 in Hia, Hma.
  destruct (Hviewb []) as (Hib & _ & Hmb). rewrite app_nil_r in Hib, Hmb.
  assert (Hentb : table_entry h1 tb s = table_entry h tb s)
    by (rewrite Hh1; by apply table_entry_ext).
  rewrite Hentb in Hmb.
  unfold code. split; [congruence|].
  destruct (table_entry_ok h ta s Hoka Hka) as (Hsca & _ & _).
  assert (Hpy : py_eq recursion_limit h2 (VRef ea) (VRef eb) = Ok false).
  { change recursion_limit with (S 999). rewrite py_eq_ref.
    replace (ea =? eb) with false by (symmetry; apply Nat.eqb_neq; lia).
    rewrite Hma, Hmb. destruct (negb _); [done|].
    apply (dict_items_eq_false _ _ _ "name" (VStr na) (VStr nb)).
    - intros k0 v0 w Hin. apply py_eq_scalar_total.
      pose proof (dict_set_scalar (table_entry h ta s) "code" (VStr s)
                    Hsca eq_refl) as Hall.
      rewrite forallb_forall in Hall. apply Hall, in_map_iff.
      exists (k0, v0). split; [done|]. by apply list_elem_of_In.
    - apply dict_get_elem_of. unfold marked.
      by rewrite dict_get_set_ne.
    - unfold marked. by rewrite dict_get_set_ne.
    - rewrite py_eq_str. f_equal. by apply String.eqb_neq. }
  unfold is_same. by rewrite Hia, Hib, Hpy.
Qed.

End AcrossVersions.

(** ** The attributes of a [Map] *)







(** X18.  A resolver that is within another is never the same as it. *)
Theorem within_not_same (a b : GICS) (H : heap) :
  holds H (is_within a b H) -> is_same a b H <> Ok (VBool true).
Proof.
  intros (Ta & _ & Hne & ca & cb & rest & Ha & Hb & _)%holds_within.
  unfold is_same. unfold code in *.
  destruct (py_eq recursion_limit H (is_valid a H) (is_valid b H))
    as [[]|]; [|done..].
  rewrite Ha, Hb, py_eq_str.
  destruct (String.eqb_spec ca cb) as [->|_]; [by rewrite Ha, Hb in Hne|].
  destruct (is_valid a H) as [|[]| | |]; done.
Qed.

Section Later.

Variables d_20140228 d_20160901 d_20180929 d_20230318 : loc.

Local Abbreviation DEFS :=
  (DEFINITIONS d_20140228 d_20160901 d_20180929 d_20230318).
Local Abbreviation init :=
  (GICS_init d_20140228 d_20160901 d_20180929 d_20230318).

Variables (h : heap) (t : loc) (version : string).
Hypothesis Hversion : dict_get DEFS version = Some (VRef t).
Hypothesis Hok : table_ok h t = true.

(** X9.  What a resolver answers once constructed it answers in every store
    obtained by appending objects: [is_valid] returns the same value,
    with the same truth, and every level is the same. *)
Theorem resolver_stable c (r : GICS) (h' ext : heap) :
  init c version h = (Ok r, h') ->
  is_valid r (h' ++ ext) = is_valid r h'
  /\ truthy (h' ++ ext) (is_valid r (h' ++ ext)) = truthy h' (is_valid r h')
  /\ forall n : Z, level r (VInt n) (h' ++ ext) = level r (VInt n) h'.
Proof.
  intros Hinit.
  destruct (valid_code_dec (dict_keys (h !!! t)) c) as [Hvalid|Hinvalid].
  - pose proof Hvalid as (s & -> & _).
    destruct (init_valid_view _ _ _ _ h t version Hversion Hok s r h' Hvalid Hinit)
      as (_ & _ & e & _ & Hview).
    destruct (Hview ext) as (Hv1 & Ht1 & _).
    destruct (Hview []) as (Hv2 & Ht2 & _). rewrite app_nil_r in Hv2, Ht2.
    split; [congruence|]. split; [congruence|].
    intros n. unfold level. by rewrite Ht1, Ht2.
  - destruct (init_invalid_view _ _ _ _ h t version Hversion Hok c r h'
                Hinvalid Hinit) as (Hcode & _).
    rewrite !(is_valid_None r _ Hcode). split; [done|]. split; [done|].
    intros n. unfold level. by rewrite !(is_valid_None r _ Hcode).
Qed.

(** X12.  A valid code of length 4, 6 or 8 is a child of its parent: the
    resolver of the code without its last two characters returns, among
    its children, the record of the code. *)
Theorem child_of_parent s (rp : GICS) (h1 : heap) vs (h2 : heap) :
  valid_code (dict_keys (h !!! t)) (VStr s) ->
  4 <= String.length s ->
  substring 0 (String.length s - 2) s ∈ dict_keys (h !!! t) ->
  init (VStr (substring 0 (String.length s - 2) s)) version h = (Ok rp, h1) ->
  children rp h1 = (Ok vs, h2) ->
  child_record h t s ∈ contents h2 vs.
Proof.
  intros Hvalid Hlen Hpk Hinit Hchildren.
  pose proof Hvalid as (s' & [= <-] & Hs & Hkey)%valid_code_shape.
  set (p := substring 0 (String.length s - 2) s) in *.
  assert (Hplen : String.length p = String.length s - 2)
    by (apply substring_0_length; lia).
  assert (Hp : code_shape p = true).
  { apply code_shape_spec. apply code_shape_spec in Hs as (_ & [m Hm] & ? & ?).
    split; [intros Heq; rewrite Heq in Hplen; cbn in Hplen; lia|].
    split; [exists (m - 1); lia|lia]. }
  pose proof (init_valid _ _ _ _ h t version Hversion Hok p Hp Hpk) as Hrun.
  rewrite Hinit in Hrun.
  destruct Hrun as (es & l1 & l2 & l3 & l4 & -> & -> & Hinv & _).
  destruct (resolver_children h t Hok es version (VStr p)
              (Some [l1; l2; l3; l4]) Hinv) as (vs' & H2 & Hrun & Hcont & _).
  { right. by exists p. }
  rewrite Hchildren in Hrun. injection Hrun as <- <-.
  rewrite Hcont. apply list_elem_of_fmap. exists s. split; [done|].
  unfold selected. apply list_elem_of_filter. split; [|done].
  apply andb_True. split; apply Is_true_true.
  - apply prefix_app. apply substring_0_app.
  - apply Nat.eqb_eq. lia.
Qed.

End Later.

(** X10.  The records of [children] are new objects, one per record and apart
    from every object of the store, the table entries among them; the
    store is extended by exactly these records. *)
Theorem children_fresh (r : GICS) (H : heap) vs (H2 : heap) :
  heap_closed H = true -> resolver_closed H r = true ->
  children r H = (Ok vs, H2) ->
  vs = map VRef (seq (length H) (length vs))
  /\ H2 = H ++ contents H2 vs
  /\ NoDup vs.
Proof.
  intros Hclosed Hr Hrun.
  pose proof (children_run r H (table_closed_of H Hclosed r Hr)) as Hc.
  rewrite Hrun in Hc. destruct Hc as (ks & rows & _ & Hrows & -> & ->).
  apply child_rows_length in Hrows.
  rewrite length_map, length_seq, <- Hrows, contents_new.
  split; [done|]. split; [done|].
  assert (Hinj : Inj eq eq VRef) by (intros ? ? [= ?]; done).
  apply (NoDup_fmap_2 VRef), NoDup_seq.
Qed.

(** ** The sample store, further *)

(** [GICS('10')], then [GICS('1010')], then [GICS('101010')]. *)
Definition resolver_10 : GICS :=
  Eval vm_compute in resolver_of (sample_init (VStr "10") "20230318" sample_heap).
Definition heap_10 : heap :=
  Eval vm_compute in snd (sample_init (VStr "10") "20230318" sample_heap).
Definition chain_1010 : GICS :=
  Eval vm_compute in resolver_of (sample_init (VStr "1010") "20230318" heap_10).
Definition chain_heap_1010 : heap :=
  Eval vm_compute in snd (sample_init (VStr "1010") "20230318" heap_10).
Definition chain_101010 : GICS :=
  Eval vm_compute in
    resolver_of (sample_init (VStr "101010") "20230318" chain_heap_1010).
Definition chain_heap : heap :=
  Eval vm_compute in snd (sample_init (VStr "101010") "20230318" chain_heap_1010).

(** The children of [GICS('10')]. *)
Definition children_10 : list value :=
  Eval vm_compute in
    match fst (children resolver_10 heap_10) with Ok vs => vs | Raise _ => [] end.
Definition heap_children_10 : heap :=
  Eval vm_compute in snd (children resolver_10 heap_10).

(** A table with a hole: code 1010 without its sector. *)
Definition holed_heap : heap :=
  [[("1010", VRef 1)]; [("name", VStr "Energy")]].

(** A dictionary that contains itself. *)
Definition cyclic_heap : heap := [[("self", VRef 0)]].

Lemma sample_init_10 :
  sample_init (VStr "10") "20230318" sample_heap = (Ok resolver_10, heap_10).
Proof. vm_compute. reflexivity. Defined.

Lemma sample_valid_10 : valid_code (dict_keys (sample_heap !!! 3)) (VStr "10").
Proof.
  exists "10". split; [reflexivity|]. split; [discriminate|].
  split; [exists 1; reflexivity|]. split; [cbn; lia|].
  cbn. apply list_elem_of_here.
Defined.

Lemma sample_keys_short k :
  k ∈ dict_keys (sample_heap !!! 3) -> String.length k <= 8.
Proof.
  cbn. intros Hk.
  repeat (apply elem_of_cons in Hk as [->|Hk]; [cbn; lia|]).
  inversion Hk.
Defined.

Lemma chain_within_1 : holds chain_heap (is_within chain_101010 chain_1010 chain_heap).
Proof. exists (VBool true). split; vm_compute; reflexivity. Defined.

Lemma chain_within_2 : holds chain_heap (is_within chain_1010 resolver_10 chain_heap).
Proof. exists (VBool true). split; vm_compute; reflexivity. Defined.

Lemma chain_immediate_1 :
  holds chain_heap (is_immediate_within chain_101010 chain_1010 chain_heap).
Proof. exists (VBool true). split; vm_compute; reflexivity. Defined.

Lemma chain_immediate_2 :
  holds chain_heap (is_immediate_within chain_1010 resolver_10 chain_heap).
Proof. exists (VBool true). split; vm_compute; reflexivity. Defined.

Lemma is_within_strict_order_witness :
  holds chain_heap (is_within chain_101010 resolver_10 chain_heap)
  /\ ~ holds chain_heap (is_within chain_1010 chain_101010 chain_heap).
Proof.
  split.
  - exact (proj2 (is_within_strict_order chain_101010 chain_1010 resolver_10
                    chain_heap) chain_within_1 chain_within_2).
  - exact (proj1 (is_within_strict_order chain_101010 chain_1010 resolver_10
                    chain_heap) chain_within_1).
Defined.

Lemma is_immediate_within_step_witness :
  holds chain_heap (is_within chain_101010 resolver_10 chain_heap)
  /\ ~ holds chain_heap (is_immediate_within chain_101010 resolver_10 chain_heap).
Proof.
  exact (proj2 (is_immediate_within_step chain_101010 chain_1010 resolver_10
                  chain_heap) chain_immediate_1 chain_immediate_2).
Defined.

Lemma within_not_same_witness :
  is_same chain_101010 chain_1010 chain_heap <> Ok (VBool true).
Proof.
  exact (within_not_same chain_101010 chain_1010 chain_heap chain_within_1).
Defined.

Lemma create_recursively_appends_witness :
  13 = length sample_heap
  /\ length sample_heap
     < length (snd (create_recursively recursion_limit 3 sample_heap)).
Proof.
  apply (proj1 (proj2 (proj2
           (create_recursively_appends recursion_limit 3 sample_heap)))).
  vm_compute. reflexivity.
Defined.

Lemma create_recursively_copies_witness :
  exists h',
    create_recursively recursion_limit 3 sample_heap = (Ok 13, h')
    /\ dict_keys (h' !!! 13) = dict_keys (sample_heap !!! 3).
Proof.
  destruct (create_recursively_copies 998 sample_heap 3 sample_table_ok)
    as (h' & Hrun & Hkeys & _).
  exists h'. split; [exact Hrun|exact Hkeys].
Defined.

Lemma create_recursively_cycle_witness :
  exists H', create_recursively recursion_limit 0 cyclic_heap
             = (Raise RecursionError, H').
Proof.
  apply (create_recursively_cycle recursion_limit cyclic_heap 0 "self").
  - cbn. lia.
  - cbn. apply list_elem_of_here.
Defined.

Lemma level_descriptor_witness :
  exists e,
    level resolver_1010 (VInt 2) heap_1010 = Ok (VRef e)
    /\ dict_get_default (heap_1010 !!! e) "name" = VStr "Energy"
    /\ is_valid resolver_1010 heap_1010 = VRef e.
Proof.
  destruct (level_descriptor 0 1 2 3 sample_heap 3 "20230318"
              sample_lookup sample_table_ok "1010" resolver_1010 heap_1010 2
              sample_valid_1010 sample_init_1010
              ltac:(lia) ltac:(cbn; lia))
    as (e & Hlevel & _ & _ & Hname & _ & _ & Hvalid).
  exists e. split; [exact Hlevel|]. split; [|apply Hvalid; reflexivity].
  rewrite Hname. vm_compute. reflexivity.
Defined.

Lemma code_roundtrip_witness : code resolver_1010 = VStr "1010".
Proof.
  exact (proj1 (code_roundtrip 0 1 2 3 sample_heap 3 "20230318"
                  sample_lookup sample_table_ok (VStr "1010") resolver_1010
                  heap_1010 sample_init_1010) sample_valid_1010).
Defined.

Lemma holed_valid_1010 : valid_code (dict_keys (holed_heap !!! 0)) (VStr "1010").
Proof.
  exists "1010". split; [reflexivity|]. split; [discriminate|].
  split; [exists 2; reflexivity|]. split; [cbn; lia|].
  cbn. apply list_elem_of_here.
Defined.

Lemma init_missing_prefix_witness :
  ~ exists r h', GICS_init 0 0 0 0 (VStr "1010") "20230318" holed_heap = (Ok r, h').
Proof.
  intros Hex.
  pose proof (proj1 (proj1 (init_missing_prefix 0 0 0 0 holed_heap 0 "20230318"
                              eq_refl eq_refl "1010" holed_valid_1010))
                Hex 2 ltac:(apply list_elem_of_here) ltac:(cbn; lia)) as Hin.
  cbn in Hin. apply elem_of_cons in Hin as [Hin|Hin]; [discriminate Hin|].
  inversion Hin.
Defined.

Lemma within_iff_ancestor_level_witness :
  holds (heap_1010 ++ [[("x", VNone)]])
        (is_within resolver_1010 resolver_10 (heap_1010 ++ [[("x", VNone)]]))
  <-> truthy (heap_1010 ++ [[("x", VNone)]])
             (is_valid resolver_10 (heap_1010 ++ [[("x", VNone)]])) = true
      /\ exists k e,
          1 <= k /\ 2 * k < String.length "1010"
          /\ level resolver_1010 (VInt (Z.of_nat k)) (heap_1010 ++ [[("x", VNone)]])
             = Ok (VRef e)
          /\ dict_get ((heap_1010 ++ [[("x", VNone)]]) !!! e) "code"
             = Some (code resolver_10).
Proof.
  exact (within_iff_ancestor_level 0 1 2 3 sample_heap 3 "20230318"
           sample_lookup sample_table_ok "1010" resolver_1010 resolver_10
           heap_1010 [[("x", VNone)]] sample_valid_1010 sample_init_1010).
Defined.

Lemma children_10_run :
  children resolver_10 heap_10 = (Ok children_10, heap_children_10).
Proof. vm_compute. reflexivity. Defined.

Lemma children_are_immediate_witness :
  exists k rk h3,
    dict_get [("code", VStr "1010"); ("name", VStr "Energy"); ("description", VNone)]
             "code" = Some (VStr k)
    /\ sample_init (VStr k) "20230318" heap_children_10 = (Ok rk, h3)
    /\ holds h3 (is_immediate_within rk resolver_10 h3)
    /\ holds h3 (contains_immediate resolver_10 rk h3).
Proof.
  apply (children_are_immediate 0 1 2 3 sample_heap 3 "20230318"
           sample_lookup sample_table_ok "10" resolver_10 heap_10
           children_10 heap_children_10).
  - vm_compute. reflexivity.
  - exact sample_keys_short.
  - exact sample_valid_10.
  - exact sample_init_10.
  - exact children_10_run.
  - vm_compute. apply list_elem_of_here.
Defined.

Lemma child_of_parent_witness :
  child_record sample_heap 3 "1010" ∈ contents heap_children_10 children_10.
Proof.
  apply (child_of_parent 0 1 2 3 sample_heap 3 "20230318"
           sample_lookup sample_table_ok "1010" resolver_10 heap_10
           children_10 heap_children_10 sample_valid_1010).
  - cbn. lia.
  - cbn. apply list_elem_of_here.
  - exact sample_init_10.
  - exact children_10_run.
Defined.

Lemma resolver_stable_witness :
  is_valid resolver_1010 (heap_1010 ++ heap_10) = is_valid resolver_1010 heap_1010
  /\ truthy (heap_1010 ++ heap_10) (is_valid resolver_1010 (heap_1010 ++ heap_10))
     = truthy heap_1010 (is_valid resolver_1010 heap_1010)
  /\ forall n : Z, level resolver_1010 (VInt n) (heap_1010 ++ heap_10)
                   = level resolver_1010 (VInt n) heap_1010.
Proof.
  exact (resolver_stable 0 1 2 3 sample_heap 3 "20230318"
           sample_lookup sample_table_ok (VStr "1010") resolver_1010 heap_1010
           heap_10 sample_init_1010).
Defined.

Lemma sample_valid_50 t :
  t = 1 \/ t = 2 -> valid_code (dict_keys (sample_heap !!! t)) (VStr "50").
Proof.
  intros Ht. exists "50". split; [reflexivity|]. split; [discriminate|].
  split; [exists 1; reflexivity|]. split; [cbn; lia|].
  destruct Ht as [-> | ->]; cbn; apply list_elem_of_further, list_elem_of_here.
Defined.

Lemma is_same_name_differs_witness :
  code resolver_50_2016 = code resolver_50_2018
  /\ is_same resolver_50_2016 resolver_50_2018 heap_50_2018 = Ok (VBool false).
Proof.
  apply (is_same_name_differs 0 1 2 3 sample_heap 1 2 "20160901" "20180929"
           "50" "Telecommunication Services" "Communication Services"
           resolver_50_2016 resolver_50_2018 heap_50_2016 heap_50_2018).
  - reflexivity.
  - reflexivity.
  - vm_compute. reflexivity.
  - vm_compute. reflexivity.
  - apply sample_valid_50. by left.
  - apply sample_valid_50. by right.
  - vm_compute. reflexivity.
  - vm_compute. reflexivity.
  - discriminate.
  - vm_compute. reflexivity.
  - vm_compute. reflexivity.
Defined.

Lemma is_same_same_version_witness :
  exists v,
    is_same resolver_10 chain_1010 chain_heap_1010 = Ok (VBool v)
    /\ (v = true <->
        (valid_code (dict_keys (sample_heap !!! 3)) (VStr "10")
         <-> valid_code (dict_keys (sample_heap !!! 3)) (VStr "1010"))
        /\ (~ valid_code (dict_keys (sample_heap !!! 3)) (VStr "10")
            \/ VStr "10" = VStr "1010")).
Proof.
  apply (is_same_same_version 0 1 2 3 sample_heap 3 "20230318"
           (VStr "10") (VStr "1010") resolver_10 chain_1010 heap_10
           chain_heap_1010 sample_lookup sample_table_ok sample_init_10).
  vm_compute. reflexivity.
Defined.



Lemma children_fresh_witness :
  children_10 = map VRef (seq (length heap_10) (length children_10))
  /\ heap_children_10 = heap_10 ++ contents heap_children_10 children_10
  /\ NoDup children_10.
Proof.
  apply (children_fresh resolver_10 heap_10 children_10 heap_children_10).
  - vm_compute. reflexivity.
  - vm_compute. reflexivity.
  - exact children_10_run.
Defined.
